(** * pygofpid: the GOFPID perimeter-intrusion pipeline

    A shallow embedding of [src/pygofpid/gofpid.py] (class [GOFPID]:
    [__init__], [fit], [predict]) together with the properties its
    specification states about configuration, validation, the four
    processing stages and the pipeline state, and of [is_in_rectangles]
    of [src/pygofpid/helpers.py].

    Python objects that are shared by reference (the configuration
    dictionaries, the list of morphological operators, image arrays) live
    in an explicit object store; a [GOFPID] instance holds references
    into it.  OpenCV (blur filters, morphological operators, background
    subtractors) is outside the repository and is taken as a parameter of
    the development. *)

From stdpp Require Import base option list gmap strings.
From Stdlib Require Import ZArith.

Local Open Scope Z_scope.

(** ** Values and objects *)

(** References into the object store. *)
Abbreviation loc := nat.

(** A numpy array: its shape and its elements in row-major order. *)
Record ndarray := NdArray { shape : list nat; data : list Z }.

(** Immediate Python values and references.  [VFun name] is a callable
    such as [cv.GaussianBlur] or [cv.erode], referred to by its name. *)
Inductive value :=
| VNone
| VInt (z : Z)
| VStr (s : string)
| VPair (a b : Z)
| VFun (name : string)
| VRef (l : loc).

(** Heap-allocated objects: dictionaries with string keys, lists and
    arrays. *)
Inductive obj :=
| ODict (d : gmap string value)
| OList (items : list value)
| OArr (a : ndarray).

Abbreviation heap := (list obj).

(** What a foreign (OpenCV) function sees of an argument: immediate
    values as they are, an array by its contents, any other object
    opaquely. *)
Inductive arg :=
| AImm (v : value)
| AArr (a : ndarray)
| AObj.

Inductive exn :=
| ValueError (msg : string)
| AttributeError
| TypeError
| CvError (msg : string).

(** The two background subtractors [fit] knows. *)
Inductive variant := MOG2 | KNN.

(** The value of [frg_detect] that selects each of them. *)
Definition variant_name (v : variant) : string :=
  match v with
  | MOG2 => "MOG2"
  | KNN => "KNN"
  end.

#[global] Instance ndarray_eq_dec : EqDecision ndarray.
Proof. solve_decision. Defined.
#[global] Instance value_eq_dec : EqDecision value.
Proof. solve_decision. Defined.
#[global] Instance variant_eq_dec : EqDecision variant.
Proof. solve_decision. Defined.

(** ** OpenCV and numpy constants *)

(** [cv.BORDER_DEFAULT] (= [BORDER_REFLECT_101]). *)
Definition BORDER_DEFAULT : Z := 4.

(** [cv.getStructuringElement(cv.MORPH_RECT, (w, h))]: an [h] x [w]
    array of ones. *)
Definition getStructuringElement_RECT (w h : nat) : ndarray :=
  NdArray [h; w] (replicate (h * w) 1).

(** [np.zeros(shape)]. *)
Definition np_zeros (sh : list nat) : ndarray :=
  NdArray sh (replicate (foldr Nat.mul 1%nat sh) 0).

(** [np.any] on an array: some element is non-zero. *)
Definition np_any (a : ndarray) : bool :=
  existsb (fun p => negb (p =? 0)) (data a).

Definition dq : string := String (Ascii.ascii_of_nat 34) EmptyString.

Definition msg_blur_no_fun : string :=
  "Parameter blur has no key " +:+ dq +:+ "fun" +:+ dq +:+ ".".
Definition msg_unknown_method : string :=
  "Unknown method for background subtraction".
Definition msg_mat_morph_no_fun : string :=
  "Parameter mat_morph has no key " +:+ dq +:+ "fun" +:+ dq +:+ ".".

(** ** The object store *)

(** Arguments are handed to OpenCV by contents. *)
Definition resolve (h : heap) (v : value) : arg :=
  match v with
  | VRef l =>
      match h !! l with
      | Some (OArr a) => AArr a
      | _ => AObj
      end
  | _ => AImm v
  end.

Definition read_dict (h : heap) (l : loc) : option (gmap string value) :=
  match h !! l with
  | Some (ODict d) => Some d
  | _ => None
  end.

Definition read_list (h : heap) (l : loc) : option (list value) :=
  match h !! l with
  | Some (OList items) => Some items
  | _ => None
  end.

(** Python truthiness of a configuration attribute ([if self.blur:],
    [if self.mat_morph:]): [None] is false, and so is an empty dictionary
    or an empty list.  The attributes are documented as a dictionary and
    a list of dictionaries; a reference to anything else counts as true
    here and fails at the first use of the object. *)
Definition truthy (h : heap) (r : option loc) : bool :=
  match r with
  | None => false
  | Some l =>
      match h !! l with
      | Some (ODict d) => bool_decide (d ≠ ∅)
      | Some (OList items) => bool_decide (items ≠ [])
      | _ => true
      end
  end.

Arguments truthy : simpl never.
Arguments read_dict : simpl never.
Arguments read_list : simpl never.

Section GOFPID.

(** ** The OpenCV interface

    [Model] is the internal state of a background subtractor;
    [createBackgroundSubtractor v] is the default-constructed subtractor
    of variant [v]; [bs_apply] is its [apply] method, which updates the
    model and returns the foreground mask (or raises); [cv_call] runs a
    callable such as [cv.GaussianBlur], [cv.blur], [cv.erode] or
    [cv.dilate] on its arguments and returns a new array (or raises). *)
Variable Model : Type.
Variable createBackgroundSubtractor : variant -> Model.
Variable bs_apply : variant -> Model -> arg -> Model * (exn + ndarray).
Variable cv_call : string -> list arg -> exn + ndarray.

(** ** The pipeline object *)

(** The attributes of a [GOFPID] instance.  [_frg_detect_mth] and
    [motion_mask_] do not exist until [fit], respectively [predict],
    assigns them. *)
Record GOFPID := mkGOFPID {
  blur : option loc;
  frg_detect : value;
  mat_morph : option loc;
  _frg_detect_mth : option (variant * Model);
  motion_mask_ : option value;
}.

Definition state := (heap * GOFPID)%type.

(** Computations that read and write the store and the instance and may
    raise; what was written before an exception stays written. *)
Definition M (A : Type) : Type := state -> (exn + A) * state.

#[global] Instance M_ret : MRet M := fun A a s => (inr a, s).

#[global] Instance M_bind : MBind M := fun A B k m s =>
  match m s with
  | (inl e, s') => (inl e, s')
  | (inr a, s') => k a s'
  end.

Definition raise {A} (e : exn) : M A := fun s => (inl e, s).

Definition get_self : M GOFPID := fun s => (inr (snd s), s).

Definition get_heap : M heap := fun s => (inr (fst s), s).

Definition set_frg_detect_mth (m : variant * Model) : M unit :=
  fun '(h, g) =>
    (inr tt, (h, mkGOFPID (blur g) (frg_detect g) (mat_morph g)
                          (Some m) (motion_mask_ g))).

Definition set_motion_mask (v : value) : M unit :=
  fun '(h, g) =>
    (inr tt, (h, mkGOFPID (blur g) (frg_detect g) (mat_morph g)
                          (_frg_detect_mth g) (Some v))).

(** A new object, at the first unused reference. *)
Definition alloc (o : obj) : M loc :=
  fun '(h, g) => (inr (length h), (h ++ [o], g)).

(** [k in d.keys()] *)
Definition has_key (d : value) (k : string) : M bool :=
  h ← get_heap;
  match d with
  | VRef l =>
      match read_dict h l with
      | Some m => mret (bool_decide (is_Some (m !! k)))
      | None => raise AttributeError
      end
  | _ => raise AttributeError
  end.

(** [d[k] = v].  [fit] assigns only after [has_key] has read the
    dictionary, so the error case does not arise. *)
Definition setitem (d : value) (k : string) (v : value) : M unit :=
  fun '(h, g) =>
    match d with
    | VRef l =>
        match read_dict h l with
        | Some m => (inr tt, (<[l := ODict (<[k := v]> m)]> h, g))
        | None => (inl TypeError, (h, g))
        end
    | _ => (inl TypeError, (h, g))
    end.

(** [d.get(k)] *)
Definition dict_get (d : value) (k : string) : M value :=
  h ← get_heap;
  match d with
  | VRef l =>
      match read_dict h l with
      | Some m => mret (default VNone (m !! k))
      | None => raise AttributeError
      end
  | _ => raise AttributeError
  end.

(** The items a [for] loop over the list visits.  The loops of [fit] and
    [predict] do not change the list they run over.  What is not a list
    is outside the documented type of [mat_morph] and raises. *)
Definition iter (l : value) : M (list value) :=
  h ← get_heap;
  match l with
  | VRef l =>
      match read_list h l with
      | Some items => mret items
      | None => raise TypeError
      end
  | _ => raise TypeError
  end.

(** Calling [f] on positional arguments: only callables can be called;
    an OpenCV callable returns a new array. *)
Definition call (f : value) (args : list value) : M value :=
  h ← get_heap;
  match f with
  | VFun name =>
      match cv_call name (resolve h <$> args) with
      | inr a => l ← alloc (OArr a); mret (VRef l)
      | inl e => raise e
      end
  | _ => raise TypeError
  end.

(** [self._frg_detect_mth.apply(X)] *)
Definition frg_detect_mth_apply (X : value) : M value :=
  fun '(h, g) =>
    match _frg_detect_mth g with
    | None => (inl AttributeError, (h, g))
    | Some (v, m) =>
        let '(m', r) := bs_apply v m (resolve h X) in
        let g' := mkGOFPID (blur g) (frg_detect g) (mat_morph g)
                           (Some (v, m')) (motion_mask_ g) in
        match r with
        | inl e => (inl e, (h, g'))
        | inr a => (inr (VRef (length h)), (h ++ [OArr a], g'))
        end
    end.

(** [np.any(self.motion_mask_)].  [predict] has just assigned the
    attribute, to the array the last stage returned; the other cases do
    not arise. *)
Definition np_any_motion_mask : M bool :=
  fun '(h, g) =>
    match motion_mask_ g with
    | None => (inl AttributeError, (h, g))
    | Some v =>
        match resolve h v with
        | AArr a => (inr (np_any a), (h, g))
        | _ => (inl TypeError, (h, g))
        end
    end.

(** [for x in xs: body(x)] *)
Fixpoint for_each {A} (xs : list A) (body : A -> M unit) : M unit :=
  match xs with
  | [] => mret tt
  | x :: xs' => body x ;; for_each xs' body
  end.

(** [for x in xs: acc = body(acc, x)] *)
Fixpoint for_fold {A B} (xs : list A) (body : B -> A -> M B) (acc : B) : M B :=
  match xs with
  | [] => mret acc
  | x :: xs' => acc' ← body acc x; for_fold xs' body acc'
  end.

Definition ref_of (r : option loc) : value :=
  match r with
  | Some l => VRef l
  | None => VNone
  end.

(** ** [GOFPID.__init__]

    The default arguments are evaluated once, when the class is defined,
    so every instance built without arguments refers to the same
    objects.  [module_heap] is the store after the class definition. *)
Definition default_blur : loc := 0%nat.
Definition default_mat_morph : loc := 5%nat.

Definition module_heap : heap :=
  [ ODict (<["fun" := VFun "cv.GaussianBlur"]>
           (<["ksize" := VPair 3 3]>
            (<["borderType" := VInt BORDER_DEFAULT]> ∅)));
    OArr (getStructuringElement_RECT 5 5);
    ODict (<["fun" := VFun "cv.erode"]> (<["kernel" := VRef 1%nat]> ∅));
    OArr (getStructuringElement_RECT 5 5);
    ODict (<["fun" := VFun "cv.dilate"]> (<["kernel" := VRef 3%nat]> ∅));
    OList [VRef 2%nat; VRef 4%nat] ].

(** An argument that is not passed ([None] here) takes its default. *)
Definition __init__ (blur : option (option loc)) (frg_detect : option value)
    (mat_morph : option (option loc)) : GOFPID :=
  mkGOFPID (default (Some default_blur) blur)
           (default (VStr "MOG2") frg_detect)
           (default (Some default_mat_morph) mat_morph)
           None None.

(** ** [GOFPID.fit]

    [fit] returns [self]; here the instance is part of the state and the
    computation returns nothing. *)

Definition fit_blur : M unit :=
  self ← get_self;
  h ← get_heap;
  if truthy h (blur self) then
    b ← has_key (ref_of (blur self)) "fun";
    if negb b then raise (ValueError msg_blur_no_fun) else
    b ← has_key (ref_of (blur self)) "ksize";
    (if negb b then setitem (ref_of (blur self)) "ksize" (VPair 3 3)
     else mret tt) ;;
    b ← has_key (ref_of (blur self)) "borderType";
    if negb b then setitem (ref_of (blur self)) "borderType" (VInt BORDER_DEFAULT)
    else mret tt
  else mret tt.

Definition fit_frg_detect : M unit :=
  self ← get_self;
  if decide (frg_detect self = VStr "MOG2") then
    set_frg_detect_mth (MOG2, createBackgroundSubtractor MOG2)
  else if decide (frg_detect self = VStr "KNN") then
    set_frg_detect_mth (KNN, createBackgroundSubtractor KNN)
  else raise (ValueError msg_unknown_method).

Definition fit_mat_morph_entry (d : value) : M unit :=
  b ← has_key d "fun";
  if negb b then raise (ValueError msg_mat_morph_no_fun) else
  b ← has_key d "kernel";
  if negb b then
    k ← alloc (OArr (getStructuringElement_RECT 5 5));
    setitem d "kernel" (VRef k)
  else mret tt.

Definition fit_mat_morph : M unit :=
  self ← get_self;
  h ← get_heap;
  if truthy h (mat_morph self) then
    items ← iter (ref_of (mat_morph self));
    for_each items fit_mat_morph_entry
  else mret tt.

Definition fit : M unit :=
  fit_blur ;; fit_frg_detect ;; fit_mat_morph.

(** ** [GOFPID.predict] *)

(** denoising by spatial blurring *)
Definition predict_blur (X : value) : M value :=
  self ← get_self;
  h ← get_heap;
  if truthy h (blur self) then
    f ← dict_get (ref_of (blur self)) "fun";
    ksize ← dict_get (ref_of (blur self)) "ksize";
    borderType ← dict_get (ref_of (blur self)) "borderType";
    call f [X; ksize; borderType]
  else mret X.

Definition predict_mat_morph_entry (mask_ : value) (d : value) : M value :=
  f ← dict_get d "fun";
  kernel ← dict_get d "kernel";
  call f [mask_; kernel].

(** denoising by mathematical morphology *)
Definition predict_mat_morph (mask_ : value) : M value :=
  self ← get_self;
  h ← get_heap;
  if truthy h (mat_morph self) then
    items ← iter (ref_of (mat_morph self));
    for_fold items predict_mat_morph_entry mask_
  else mret mask_.

Definition predict (X : value) : M Z :=
  X ← predict_blur X;
  mask_ ← frg_detect_mth_apply X;
  mask_ ← predict_mat_morph mask_;
  set_motion_mask mask_ ;;
  b ← np_any_motion_mask;
  if (b : bool) then mret 1 else mret 0.

(** The tail of [predict], once the subtractor has produced the raw
    mask. *)
Definition predict_tail (mask_ : value) : M Z :=
  mask_ ← predict_mat_morph mask_;
  set_motion_mask mask_ ;;
  b ← np_any_motion_mask;
  if (b : bool) then mret 1 else mret 0.

(** Running [predict] on successive frames; the caller sees each outcome
    (a verdict or an exception) and goes on with the next frame. *)
Fixpoint predict_seq (Xs : list value) (s : state) : list (exn + Z) * state :=
  match Xs with
  | [] => ([], s)
  | X :: Xs' =>
      let '(r, s1) := predict X s in
      let '(rs, s2) := predict_seq Xs' s1 in
      (r :: rs, s2)
  end.

(** ** What the pipeline reads of its configuration

    [fit] and [predict] look at the configuration objects only through
    membership tests and [get] on a few keys.  [config_of] collects
    exactly that, with references to arrays replaced by their contents:
    two stores that agree on it hold the same configuration, whatever the
    identity of the objects. *)

Inductive stage (A : Type) :=
| Disabled
| IllTyped
| Enabled (a : A).
Arguments Disabled {A}.
Arguments IllTyped {A}.
Arguments Enabled {A}.

Record blur_cfg := BlurCfg {
  b_fun : option arg;
  b_ksize : option arg;
  b_borderType : option arg;
}.

Record morph_cfg := MorphCfg {
  m_fun : option arg;
  m_kernel : option arg;
}.

Record config := Config {
  c_blur : stage blur_cfg;
  c_frg_detect : value;
  c_mat_morph : stage (list (option morph_cfg));
}.

Definition lookup_arg (h : heap) (m : gmap string value) (k : string)
    : option arg :=
  resolve h <$> m !! k.

Definition blur_cfg_of (h : heap) (r : option loc) : stage blur_cfg :=
  match r with
  | Some l =>
      if truthy h r then
        match read_dict h l with
        | Some m =>
            Enabled (BlurCfg (lookup_arg h m "fun") (lookup_arg h m "ksize")
                             (lookup_arg h m "borderType"))
        | None => IllTyped
        end
      else Disabled
  | None => Disabled
  end.

(** An entry of [mat_morph]; [None] when it is not a dictionary. *)
Definition entry_cfg_of (h : heap) (d : value) : option morph_cfg :=
  match d with
  | VRef l =>
      match read_dict h l with
      | Some m => Some (MorphCfg (lookup_arg h m "fun") (lookup_arg h m "kernel"))
      | None => None
      end
  | _ => None
  end.

Definition mat_morph_cfg_of (h : heap) (r : option loc)
    : stage (list (option morph_cfg)) :=
  match r with
  | Some l =>
      if truthy h r then
        match read_list h l with
        | Some items => Enabled (entry_cfg_of h <$> items)
        | None => IllTyped
        end
      else Disabled
  | None => Disabled
  end.

Definition config_of (s : state) : config :=
  Config (blur_cfg_of (fst s) (blur (snd s)))
         (frg_detect (snd s))
         (mat_morph_cfg_of (fst s) (mat_morph (snd s))).

(** ** The stages as functions of the configuration *)

Definition arg_or_none (o : option arg) : arg := default (AImm VNone) o.

Definition call_pure (f : arg) (args : list arg) : exn + ndarray :=
  match f with
  | AImm (VFun name) => cv_call name args
  | _ => inl TypeError
  end.

(** Denoiser: the frame handed to the background subtractor. *)
Definition denoise (b : stage blur_cfg) (x : arg) : exn + arg :=
  match b with
  | Disabled => inr x
  | IllTyped => inl AttributeError
  | Enabled c =>
      match call_pure (arg_or_none (b_fun c))
                      [x; arg_or_none (b_ksize c); arg_or_none (b_borderType c)] with
      | inl e => inl e
      | inr a => inr (AArr a)
      end
  end.

(** Mask refiner: the operators one after the other, in list order. *)
Fixpoint refine (es : list (option morph_cfg)) (mask : ndarray) : exn + ndarray :=
  match es with
  | [] => inr mask
  | None :: _ => inl AttributeError
  | Some e :: es' =>
      match call_pure (arg_or_none (m_fun e))
                      [AArr mask; arg_or_none (m_kernel e)] with
      | inl err => inl err
      | inr mask' => refine es' mask'
      end
  end.

Definition refine_stage (m : stage (list (option morph_cfg))) (mask : ndarray)
    : exn + ndarray :=
  match m with
  | Disabled => inr mask
  | IllTyped => inl TypeError
  | Enabled es => refine es mask
  end.

(** Decision stage. *)
Definition verdict (mask : ndarray) : Z := if np_any mask then 1 else 0.

(** One frame through the stages: the subtractor afterwards, and the
    refined mask or the exception. *)
Definition process (c : config) (mth : option (variant * Model)) (x : arg)
    : option (variant * Model) * (exn + ndarray) :=
  match denoise (c_blur c) x with
  | inl e => (mth, inl e)
  | inr x' =>
      match mth with
      | None => (None, inl AttributeError)
      | Some (v, m) =>
          (Some (v, fst (bs_apply v m x')),
           match snd (bs_apply v m x') with
           | inl e => inl e
           | inr raw => refine_stage (c_mat_morph c) raw
           end)
      end
  end.

Fixpoint process_seq (c : config) (mth : option (variant * Model))
    (xs : list arg) : list (exn + Z) :=
  match xs with
  | [] => []
  | x :: xs' =>
      match process c mth x with
      | (mth', inl e) => inl e :: process_seq c mth' xs'
      | (mth', inr mask) => inr (verdict mask) :: process_seq c mth' xs'
      end
  end.

(** The mask of the last frame of a sequence that went through all the
    stages, if there is one: what [motion_mask_] refers to afterwards. *)
Fixpoint process_seq_last (c : config) (mth : option (variant * Model))
    (xs : list arg) : option ndarray :=
  match xs with
  | [] => None
  | x :: xs' =>
      match process_seq_last c (fst (process c mth x)) xs' with
      | Some mask => Some mask
      | None =>
          match snd (process c mth x) with
          | inl _ => None
          | inr mask => Some mask
          end
      end
  end.

(** Validation and defaulting, as [fit] performs them. *)
Definition check_blur (b : stage blur_cfg) : exn + stage blur_cfg :=
  match b with
  | Disabled => inr Disabled
  | IllTyped => inl AttributeError
  | Enabled c =>
      match b_fun c with
      | None => inl (ValueError msg_blur_no_fun)
      | Some f =>
          inr (Enabled
                 (BlurCfg (Some f)
                    (Some (default (AImm (VPair 3 3)) (b_ksize c)))
                    (Some (default (AImm (VInt BORDER_DEFAULT)) (b_borderType c)))))
      end
  end.

Definition check_frg_detect (v : value) : exn + variant :=
  if decide (v = VStr "MOG2") then inr MOG2
  else if decide (v = VStr "KNN") then inr KNN
  else inl (ValueError msg_unknown_method).

Definition check_entry (e : option morph_cfg) : exn + option morph_cfg :=
  match e with
  | None => inl AttributeError
  | Some c =>
      match m_fun c with
      | None => inl (ValueError msg_mat_morph_no_fun)
      | Some f =>
          inr (Some (MorphCfg (Some f)
                 (Some (default (AArr (getStructuringElement_RECT 5 5))
                                (m_kernel c)))))
      end
  end.

Fixpoint check_entries (es : list (option morph_cfg))
    : exn + list (option morph_cfg) :=
  match es with
  | [] => inr []
  | e :: es' =>
      match check_entry e with
      | inl err => inl err
      | inr e' =>
          match check_entries es' with
          | inl err => inl err
          | inr es'' => inr (e' :: es'')
          end
      end
  end.

Definition check_mat_morph (m : stage (list (option morph_cfg)))
    : exn + stage (list (option morph_cfg)) :=
  match m with
  | Disabled => inr Disabled
  | IllTyped => inl TypeError
  | Enabled es =>
      match check_entries es with
      | inl err => inl err
      | inr es' => inr (Enabled es')
      end
  end.

(** The outcome of [fit] on a configuration: the exception it raises, or
    the subtractor variant it binds and the configuration it leaves. *)
Definition check_config (c : config) : exn + (variant * config) :=
  match check_blur (c_blur c) with
  | inl e => inl e
  | inr b =>
      match check_frg_detect (c_frg_detect c) with
      | inl e => inl e
      | inr v =>
          match check_mat_morph (c_mat_morph c) with
          | inl e => inl e
          | inr m => inr (v, Config b (c_frg_detect c) m)
          end
      end
  end.

(** ** Well-formed stores and the pipeline states *)

(** A reference is valid when it points into the store. *)
Definition valid (h : heap) (v : value) : Prop :=
  match v with
  | VRef l => (l < length h)%nat
  | _ => True
  end.

Definition closed_obj (h : heap) (o : obj) : Prop :=
  match o with
  | ODict d => map_Forall (fun _ v => valid h v) d
  | OList items => Forall (valid h) items
  | OArr _ => True
  end.

(** Python has no dangling references: every reference stored in an
    object of the store, or held by the instance, points into it. *)
Definition closed (h : heap) : Prop := Forall (closed_obj h) h.

Definition wf (s : state) : Prop :=
  closed (fst s) /\
  valid (fst s) (ref_of (blur (snd s))) /\
  valid (fst s) (ref_of (mat_morph (snd s))).

#[global] Instance valid_dec h v : Decision (valid h v).
Proof. destruct v; simpl; apply _. Defined.

#[global] Instance closed_obj_dec h o : Decision (closed_obj h o).
Proof. destruct o; simpl; apply _. Defined.

#[global] Instance closed_dec h : Decision (closed h).
Proof. unfold closed. apply _. Defined.

#[global] Instance wf_dec s : Decision (wf s).
Proof. unfold wf. apply _. Defined.

(** The state machine of the specification: no subtractor is allocated
    in [Unconfigured]. *)
Definition Unconfigured (g : GOFPID) : Prop := _frg_detect_mth g = None.

(** The states of a pipeline on which [fit] has never succeeded: the
    newly built instance, and what [fit] attempts that raise and
    [predict] calls make of it. *)
Inductive never_fitted : state -> Prop :=
| nf_init h b f m :
    wf (h, __init__ b f m) ->
    never_fitted (h, __init__ b f m)
| nf_fit s e s' :
    never_fitted s -> fit s = (inl e, s') -> never_fitted s'
| nf_predict s X r s' :
    never_fitted s -> predict X s = (r, s') -> never_fitted s'.

(** The states a configured pipeline goes through while it processes
    frames. *)
Inductive processing (s0 : state) : state -> Prop :=
| pr_start : processing s0 s0
| pr_predict s X r s' :
    processing s0 s -> predict X s = (r, s') -> processing s0 s'.

(** The instance with its two computed attributes replaced. *)
Definition with_results (g : GOFPID) (mth : option (variant * Model))
    (mask : option value) : GOFPID :=
  mkGOFPID (blur g) (frg_detect g) (mat_morph g) mth mask.

(** The store only gains arrays; the configuration attributes stay. *)
Definition same_config (g g' : GOFPID) : Prop :=
  blur g' = blur g /\ frg_detect g' = frg_detect g /\ mat_morph g' = mat_morph g.

Definition extends (s s' : state) : Prop :=
  (exists arrs, fst s' = fst s ++ (OArr <$> arrs)) /\
  same_config (snd s) (snd s').

(** The store only gains arrays and the instance is untouched. *)
Definition grows (s s' : state) : Prop :=
  (exists arrs, fst s' = fst s ++ (OArr <$> arrs)) /\ snd s' = snd s.

(** What [fit] may do to an object: a non-empty dictionary gains default
    entries, nothing else changes. *)
Definition is_default (h' : heap) (k : string) (v : value) : Prop :=
  (k = "ksize" /\ v = VPair 3 3) \/
  (k = "borderType" /\ v = VInt BORDER_DEFAULT) \/
  (k = "kernel" /\
   exists l, v = VRef l /\ h' !! l = Some (OArr (getStructuringElement_RECT 5 5))).

Definition defaulted (h' : heap) (o o' : obj) : Prop :=
  match o, o' with
  | ODict m, ODict m' =>
      m ⊆ m' /\ (m = ∅ -> m' = ∅) /\
      forall k v, m !! k = None -> m' !! k = Some v -> is_default h' k v
  | _, _ => o' = o
  end.

(** A computation whose every run relates the state before to the state
    after. *)
Definition preserves {A} (R : state -> state -> Prop) (m : M A) : Prop :=
  forall s, R s (snd (m s)).

Definition fit_heap (h h' : heap) : Prop :=
  (length h <= length h')%nat /\
  (forall l o, h !! l = Some o ->
     exists o', h' !! l = Some o' /\ defaulted h' o o') /\
  (closed h -> closed h').

(** What [fit] does to a state: see [fit_heap]; the configuration
    attributes and the last mask stay. *)
Definition fit_rel (s s' : state) : Prop :=
  fit_heap (fst s) (fst s') /\
  same_config (snd s) (snd s') /\
  motion_mask_ (snd s') = motion_mask_ (snd s).

(** The same, for the parts of [fit] that do not bind the subtractor. *)
Definition fit_rel_mth (s s' : state) : Prop :=
  fit_heap (fst s) (fst s') /\ snd s' = snd s.

(** A dictionary object that has all the keys [ks]. *)
Definition has_keys (h : heap) (d : value) (ks : list string) : Prop :=
  exists l m, d = VRef l /\ read_dict h l = Some m /\
              Forall (fun k => is_Some (m !! k)) ks.

(** The configuration objects as a successful [fit] leaves them. *)
Definition blur_ok (h : heap) (r : option loc) : Prop :=
  truthy h r = false \/ has_keys h (ref_of r) ["fun"; "ksize"; "borderType"].

Definition mat_morph_ok (h : heap) (r : option loc) : Prop :=
  truthy h r = false \/
  exists l items, r = Some l /\ read_list h l = Some items /\
                  Forall (fun d => has_keys h d ["fun"; "kernel"]) items.

(** An entry of [mat_morph] after a successful [fit]: the dictionary [d]
    refers to has kept what it had, and its ["kernel"] is the one it had
    or, if it had none, a new 5 x 5 rectangle. *)
Definition kernel_defaulted (h h' : heap) (d : value) : Prop :=
  exists l m m',
    d = VRef l /\ read_dict h l = Some m /\ read_dict h' l = Some m' /\
    m ⊆ m' /\ is_Some (m !! "fun") /\
    match m !! "kernel" with
    | Some k => m' !! "kernel" = Some k
    | None =>
        exists lk, m' !! "kernel" = Some (VRef lk) /\
                   h' !! lk = Some (OArr (getStructuringElement_RECT 5 5))
    end.

(** A state in which [predict] cannot reach its end: no subtractor is
    bound, or the [mat_morph] configuration does not pass validation. *)
Definition unusable (s : state) : Prop :=
  Unconfigured (snd s) \/
  exists e, check_mat_morph (mat_morph_cfg_of (fst s) (mat_morph (snd s))) = inl e.

(** A dictionary whose ["fun"] is a callable. *)
Definition callable_fun (h : heap) (d : value) : Prop :=
  exists l m name,
    d = VRef l /\ read_dict h l = Some m /\ m !! "fun" = Some (VFun name).

(** The same, on what the pipeline reads of its configuration. *)
Definition fun_callable (o : option arg) : Prop :=
  exists name, o = Some (AImm (VFun name)).

Definition config_callable (c : config) : Prop :=
  match c_blur c with
  | Enabled b => fun_callable (b_fun b)
  | Disabled => True
  | IllTyped => False
  end /\
  match c_mat_morph c with
  | Enabled es =>
      Forall (fun e => exists mc, e = Some mc /\ fun_callable (m_fun mc)) es
  | Disabled => True
  | IllTyped => False
  end.

(** An exception that OpenCV raised: a callable on some arguments, or a
    subtractor on some frame. *)
Definition opencv_raises (e : exn) : Prop :=
  (exists name args, cv_call name args = inl e) \/
  (exists v m x, snd (bs_apply v m x) = inl e).

(** The outcome of a computation, without its value. *)
Definition status {A} (r : exn + A) : exn + unit :=
  match r with
  | inl e => inl e
  | inr _ => inr tt
  end.

End GOFPID.

Arguments raise {Model A}.
Arguments get_self {Model}.
Arguments get_heap {Model}.
Arguments set_frg_detect_mth {Model}.
Arguments set_motion_mask {Model}.
Arguments alloc {Model}.
Arguments has_key {Model}.
Arguments setitem {Model}.
Arguments dict_get {Model}.
Arguments iter {Model}.
Arguments call {Model}.
Arguments frg_detect_mth_apply {Model}.
Arguments np_any_motion_mask {Model}.
Arguments for_each {Model A}.
Arguments for_fold {Model A B}.
Arguments fit_blur {Model}.
Arguments fit_frg_detect {Model}.
Arguments fit_mat_morph_entry {Model}.
Arguments fit_mat_morph {Model}.
Arguments predict_blur {Model}.
Arguments predict_mat_morph_entry {Model}.
Arguments predict_mat_morph {Model}.
Arguments predict_seq {Model}.
Arguments predict_tail {Model}.
Arguments config_of {Model}.
Arguments process {Model}.
Arguments process_seq {Model}.
Arguments process_seq_last {Model}.
Arguments wf {Model}.
Arguments Unconfigured {Model}.
Arguments never_fitted {Model}.
Arguments processing {Model}.
Arguments same_config {Model}.
Arguments extends {Model}.
Arguments opencv_raises {Model}.
Arguments unusable {Model}.
Arguments fit_rel {Model}.
Arguments fit_rel_mth {Model}.
Arguments status {A}.
Arguments with_results {Model}.
Arguments grows {Model}.
Arguments preserves {Model A}.
Arguments Disabled {A}.
Arguments IllTyped {A}.
Arguments Enabled {A}.
Arguments mkGOFPID {Model}.
Arguments blur {Model}.
Arguments frg_detect {Model}.
Arguments mat_morph {Model}.
Arguments _frg_detect_mth {Model}.
Arguments motion_mask_ {Model}.
Arguments __init__ {Model}.
Arguments fit {Model}.
Arguments predict {Model}.

(** ** [helpers.is_in_rectangles]

    [centers] is a sequence of points and [thickness] a point.  Their
    coordinates are numbers of some type [T]: Python integers, or numpy
    scalars of the dtype of the arrays the caller passes ([get_centers]
    and [get_bottoms] return int16 arrays unless told otherwise).  [sub]
    and [add] are [-] and [+] on them as that type has them: exact on
    Python integers, wrapping around in a fixed-width dtype, raising
    where numpy raises.  The contour handed to OpenCV is the array of
    the four corners, of the dtype numpy gives it.
    [cv.pointPolygonTest(contour, pt, False)] raises [cv2.error] on a
    contour whose dtype it does not take (int16 is one), and otherwise
    returns +1, 0 or -1 as the point lies inside the polygon, on an edge
    or outside.  All of these are parameters, and so are the type of the
    point [coord] and the type [Err] of the exceptions. *)
Section helpers.

Variable T : Type.
Variable Point : Type.
Variable Err : Type.
Variable sub add : T -> T -> Err + T.
Variable pointPolygonTest : list (T * T) -> Point -> bool -> Err + Z.

#[local] Instance Err_bind : MBind (sum Err) := fun A B k r =>
  match r with
  | inl e => inl e
  | inr a => k a
  end.

(** The four corners the function builds around a center, each
    coordinate computed in the order of the source. *)
Definition rectangle_of (center thickness : T * T) : Err + list (T * T) :=
  x0 ← sub (fst center) (fst thickness);
  y0 ← sub (snd center) (snd thickness);
  x1 ← sub (fst center) (fst thickness);
  y1 ← add (snd center) (snd thickness);
  x2 ← add (fst center) (fst thickness);
  y2 ← add (snd center) (snd thickness);
  x3 ← add (fst center) (fst thickness);
  y3 ← sub (snd center) (snd thickness);
  inr [(x0, y0); (x1, y1); (x2, y2); (x3, y3)].

(** The condition of the [if]: [cv.pointPolygonTest(...) >= 0]. *)
Definition in_rectangle (coord : Point) (center thickness : T * T)
    : Err + bool :=
  rect ← rectangle_of center thickness;
  d ← pointPolygonTest rect coord false;
  inr (0 <=? d).

(** The loop [for i, center in enumerate(centers)], from index [i] on;
    its [else] branch returns -1. *)
Fixpoint is_in_rectangles_from (i : Z) (coord : Point) (centers : list (T * T))
    (thickness : T * T) : Err + Z :=
  match centers with
  | [] => inr (-1)
  | center :: rest =>
      match in_rectangle coord center thickness with
      | inl e => inl e
      | inr true => inr i
      | inr false => is_in_rectangles_from (i + 1) coord rest thickness
      end
  end.

Definition is_in_rectangles (coord : Point) (centers : list (T * T))
    (thickness : T * T) : Err + Z :=
  is_in_rectangles_from 0 coord centers thickness.

End helpers.

Arguments rectangle_of {T Err}.
Arguments in_rectangle {T Point Err}.
Arguments is_in_rectangles_from {T Point Err}.
Arguments is_in_rectangles {T Point Err}.

(** ** A small executable OpenCV

    Frame differencing as background subtractor (the model is the
    previous frame), identity smoothing, and erosion and dilation over
    the two row-major neighbours of a pixel.  It serves to run the
    pipeline on concrete inputs. *)
Module Demo.

Definition Model := option ndarray.

Definition createBackgroundSubtractor (_ : variant) : Model := None.

Definition bs_apply (_ : variant) (m : Model) (x : arg)
    : Model * (exn + ndarray) :=
  match x with
  | AArr a =>
      (Some a,
       inr match m with
           | None => np_zeros (shape a)
           | Some p =>
               NdArray (shape a)
                 (zip_with (fun u v => if u =? v then 0 else 255)
                           (data p) (data a))
           end)
  | _ => (m, inl (CvError "apply: not an array"))
  end.

Fixpoint window (f : Z -> Z -> Z) (prev : Z) (xs : list Z) : list Z :=
  match xs with
  | [] => []
  | x :: rest =>
      f prev (match rest with [] => x | y :: _ => f x y end)
        :: window f x rest
  end.

Definition morph (f : Z -> Z -> Z) (a : ndarray) : ndarray :=
  NdArray (shape a)
    (match data a with [] => [] | x :: _ => window f x (data a) end).

Definition cv_call (name : string) (args : list arg) : exn + ndarray :=
  match args with
  | AArr a :: _ =>
      if decide (name = "cv.erode") then inr (morph Z.min a)
      else if decide (name = "cv.dilate") then inr (morph Z.max a)
      else if decide (name = "cv.GaussianBlur") then inr a
      else if decide (name = "cv.blur") then inr a
      else inl (CvError "unknown function")
  | _ => inl (CvError "not an array")
  end.

Definition fit := fit createBackgroundSubtractor.
Definition predict := predict bs_apply cv_call.

Definition frame1 : ndarray := NdArray [2; 3]%nat [7; 7; 7; 7; 7; 7].
Definition frame2 : ndarray := NdArray [2; 3]%nat [7; 9; 9; 9; 7; 7].

(** The default pipeline, and two frames in the store. *)
Definition h0 : heap := module_heap ++ [OArr frame1; OArr frame2].
Definition g0 : GOFPID Model := __init__ None None None.
Definition s0 : state Model := (h0, g0).

(** ... after [fit], and after [predict] on the first and on the second
    frame. *)
Definition s1 : state Model := snd (fit s0).
Definition s2 : state Model := snd (predict (VRef 6%nat) s1).
Definition s3 : state Model := snd (predict (VRef 7%nat) s2).

(** The same configuration in objects of its own, stored after the
    frames. *)
Definition h0' : heap :=
  [ OArr frame1; OArr frame2;
    ODict (<["fun" := VFun "cv.GaussianBlur"]>
           (<["ksize" := VPair 3 3]>
            (<["borderType" := VInt BORDER_DEFAULT]> ∅)));
    OArr (getStructuringElement_RECT 5 5);
    ODict (<["fun" := VFun "cv.erode"]> (<["kernel" := VRef 3%nat]> ∅));
    OArr (getStructuringElement_RECT 5 5);
    ODict (<["fun" := VFun "cv.dilate"]> (<["kernel" := VRef 5%nat]> ∅));
    OList [VRef 4%nat; VRef 6%nat] ].
Definition g0' : GOFPID Model :=
  __init__ (Some (Some 2%nat)) (Some (VStr "MOG2")) (Some (Some 7%nat)).

(** [GOFPID(blur=None, mat_morph=None)] and one frame. *)
Definition h_plain : heap := [OArr frame2].
Definition g_plain : GOFPID Model := __init__ (Some None) None (Some None).
Definition s_plain : state Model := snd (fit (h_plain, g_plain)).

(** [GOFPID(blur=None, frg_detect='KNN', mat_morph=None)] and
    [GOFPID(blur=None, frg_detect='GMG', mat_morph=None)]. *)
Definition g_knn : GOFPID Model :=
  __init__ (Some None) (Some (VStr "KNN")) (Some None).
Definition g_gmg : GOFPID Model :=
  __init__ (Some None) (Some (VStr "GMG")) (Some None).

(** [GOFPID(frg_detect='KNN')]: the default denoiser and refiner. *)
Definition g_knn_default : GOFPID Model :=
  __init__ None (Some (VStr "KNN")) None.

(** [GOFPID(blur=None, mat_morph=[{}])]: an entry without ["fun"]. *)
Definition h_bad : heap := [ODict ∅; OList [VRef 0%nat]].
Definition g_bad : GOFPID Model := __init__ (Some None) None (Some (Some 1%nat)).

(** [GOFPID(blur={}, mat_morph=None)]: an empty [blur] dictionary. *)
Definition h_empty : heap := [ODict ∅].
Definition g_empty : GOFPID Model := __init__ (Some (Some 0%nat)) None (Some None).

(** [GOFPID(blur={'fun': cv.blur}, mat_morph=[{'fun': cv.erode}])]:
    nothing but the operations is set. *)
Definition h_bare : heap :=
  [ ODict (<["fun" := VFun "cv.blur"]> ∅);
    ODict (<["fun" := VFun "cv.erode"]> ∅);
    OList [VRef 1%nat] ].
Definition g_bare : GOFPID Model :=
  __init__ (Some (Some 0%nat)) None (Some (Some 2%nat)).

(** [GOFPID(blur=None, mat_morph=[{}])] with a frame in the store, after
    the [fit] that raises. *)
Definition h_bad_frame : heap := [ODict ∅; OList [VRef 0%nat]; OArr frame1].
Definition s_bad : state Model := snd (fit (h_bad_frame, g_bad)).

(** [GOFPID(blur={'fun': 'gaussian'}, mat_morph=None)]: the operation is
    a string, not a callable. *)
Definition h_str : heap :=
  [ODict (<["fun" := VStr "gaussian"]> ∅); OArr frame1].
Definition s_str : state Model := (h_str, g_empty).

(** The [mat_morph] entry of [h_bare]. *)
Definition d_erode : gmap string value := <["fun" := VFun "cv.erode"]> ∅.

(** numpy integers of two dtypes.  Arithmetic takes the wider dtype of
    its operands and wraps around in it; an array has the widest dtype
    of its elements. *)
Inductive dtype := int16 | int32.

Definition np_int := (dtype * Z)%type.

Definition promote (a b : dtype) : dtype :=
  match a, b with
  | int16, int16 => int16
  | _, _ => int32
  end.

Definition wrap (d : dtype) (z : Z) : Z :=
  let half := match d with int16 => 2 ^ 15 | int32 => 2 ^ 31 end in
  (z + half) mod (2 * half) - half.

Definition np_sub (a b : np_int) : exn + np_int :=
  inr (promote (fst a) (fst b), wrap (promote (fst a) (fst b)) (snd a - snd b)).

Definition np_add (a b : np_int) : exn + np_int :=
  inr (promote (fst a) (fst b), wrap (promote (fst a) (fst b)) (snd a + snd b)).

Definition array_dtype (contour : list (np_int * np_int)) : dtype :=
  foldr (fun p d => promote (fst (fst p)) (promote (fst (snd p)) d))
        int16 contour.

(** A point-in-polygon test for the rectangles of [is_in_rectangles]:
    the bounding box of the corners.  An int16 contour is refused, as
    OpenCV refuses it. *)
Definition pointPolygonTest (contour : list (np_int * np_int)) (pt : Z * Z)
    (_ : bool) : exn + Z :=
  match array_dtype contour, contour with
  | int16, _ => inl (CvError "pointPolygonTest: contour is not CV_32S or CV_32F")
  | int32, [] => inr (-1)
  | int32, p :: ps =>
      let xs := snd <$> (fst <$> contour) in
      let ys := snd <$> (snd <$> contour) in
      let x0 := foldr Z.min (snd (fst p)) xs in
      let x1 := foldr Z.max (snd (fst p)) xs in
      let y0 := foldr Z.min (snd (snd p)) ys in
      let y1 := foldr Z.max (snd (snd p)) ys in
      inr (if (x0 <? fst pt) && (fst pt <? x1) && (y0 <? snd pt) && (snd pt <? y1)
           then 1
           else if (x0 <=? fst pt) && (fst pt <=? x1) &&
                   (y0 <=? snd pt) && (snd pt <=? y1)
           then 0
           else -1)
  end.

(** Points given as int32 and as int16 numpy arrays. *)
Definition points (d : dtype) (ps : list (Z * Z)) : list (np_int * np_int) :=
  (fun p => ((d, fst p), (d, snd p))) <$> ps.

End Demo.


(** * Properties *)

Section Properties.

Context {Model : Type}.
Variable createBackgroundSubtractor : variant -> Model.
Variable bs_apply : variant -> Model -> arg -> Model * (exn + ndarray).
Variable cv_call : string -> list arg -> exn + ndarray.

Local Abbreviation Fit := (fit createBackgroundSubtractor).
Local Abbreviation Predict := (predict bs_apply cv_call).
Local Abbreviation Predict_seq := (predict_seq bs_apply cv_call).
Local Abbreviation Extends := (extends (Model := Model)).
Local Abbreviation Grows := (grows (Model := Model)).

(** ** Running the monad *)

Lemma bind_run {A B} (m : M Model A) (k : A -> M Model B) s :
  (m ≫= k) s =
  match m s with
  | (inl e, s') => (inl e, s')
  | (inr a, s') => k a s'
  end.
Proof. reflexivity. Qed.


Ltac munfold :=
  unfold mbind, M_bind, mret, M_ret, get_self, get_heap, raise.

Lemma preserves_ret {A} (R : relation (state Model)) `{!Reflexive R} (a : A) :
  preserves R (mret a).
Proof. intros s. apply reflexivity. Qed.

Lemma preserves_raise {A} (R : relation (state Model)) `{!Reflexive R} e :
  preserves R (raise (A := A) e).
Proof. intros s. apply reflexivity. Qed.

Lemma preserves_bind {A B} (R : relation (state Model)) `{!PreOrder R}
    (m : M Model A) (k : A -> M Model B) :
  preserves R m -> (forall a, preserves R (k a)) -> preserves R (m ≫= k).
Proof.
  intros Hm Hk s. rewrite bind_run. specialize (Hm s).
  destruct (m s) as [[e|a] s1]; simpl in *; [done|].
  etrans; [exact Hm | apply Hk].
Qed.

Lemma preserves_get_self (R : relation (state Model)) `{!Reflexive R} :
  preserves R get_self.
Proof. intros s. apply reflexivity. Qed.

Lemma preserves_get_heap (R : relation (state Model)) `{!Reflexive R} :
  preserves R get_heap.
Proof. intros s. apply reflexivity. Qed.

Ltac pres_leaf :=
  first [ apply preserves_ret | apply preserves_raise
        | apply preserves_get_self | apply preserves_get_heap ];
  apply _.

Ltac pres_bind := apply preserves_bind; [apply _ | |].

Lemma preserves_for_fold {A B} (R : relation (state Model)) `{!PreOrder R}
    (body : B -> A -> M Model B) xs acc :
  (forall b a, preserves R (body b a)) -> preserves R (for_fold xs body acc).
Proof.
  intros Hb. revert acc. induction xs as [|x xs IH]; intros acc; simpl.
  - pres_leaf.
  - apply preserves_bind; [apply _ | apply Hb | intros b; apply IH].
Qed.

Lemma preserves_for_each {A} (R : relation (state Model)) `{!PreOrder R}
    (body : A -> M Model unit) xs :
  (forall a, preserves R (body a)) -> preserves R (for_each xs body).
Proof.
  intros Hb. induction xs as [|x xs IH]; simpl.
  - pres_leaf.
  - apply preserves_bind; [apply _ | apply Hb | intros _; apply IH].
Qed.

(** ** [predict] only adds objects to the store *)

#[local] Instance grows_preorder : PreOrder Grows.
Proof.
  split.
  - intros [h g]. split; [exists []; simpl; by rewrite app_nil_r | done].
  - intros [h1 g1] [h2 g2] [h3 g3] [[j1 H1] E1] [[j2 H2] E2].
    simpl in *. subst. split; [|done].
    exists (j1 ++ j2). simpl. by rewrite fmap_app, app_assoc.
Qed.

#[local] Instance extends_preorder : PreOrder Extends.
Proof.
  split.
  - intros [h g]. split; [exists []; simpl; by rewrite app_nil_r | done].
  - intros [h1 g1] [h2 g2] [h3 g3] [[j1 H1] (A1 & B1 & C1)] [[j2 H2] (A2 & B2 & C2)].
    simpl in *. subst. split.
    + exists (j1 ++ j2). simpl. by rewrite fmap_app, app_assoc.
    + unfold same_config. simpl. split_and!; congruence.
Qed.

Lemma grows_extends s s' : Grows s s' -> Extends s s'.
Proof. intros [H1 H2]. split; [done|]. rewrite H2. done. Qed.

Lemma preserves_grows_extends {A} (m : M Model A) :
  preserves Grows m -> preserves Extends m.
Proof. intros H s. apply grows_extends, H. Qed.

Lemma grows_dict_get d k : preserves Grows (dict_get d k).
Proof.
  unfold dict_get. pres_bind; [pres_leaf |].
  intros h. destruct d; try pres_leaf.
  destruct (read_dict h l); [pres_leaf | pres_leaf].
Qed.

Lemma grows_alloc a : preserves Grows (alloc (OArr a)).
Proof. intros [h g]. simpl. split; [by exists [a] | done]. Qed.

Lemma grows_iter l : preserves Grows (iter l).
Proof.
  unfold iter. pres_bind; [pres_leaf |].
  intros h. destruct l; try pres_leaf.
  destruct (read_list h l); [pres_leaf | pres_leaf].
Qed.

Lemma grows_call f args : preserves Grows (call cv_call f args).
Proof.
  unfold call. pres_bind; [pres_leaf |].
  intros h. destruct f; try pres_leaf.
  destruct (cv_call _ _); [pres_leaf|].
  pres_bind; [apply grows_alloc |].
  intros l. pres_leaf.
Qed.

Lemma grows_predict_blur X : preserves Grows (predict_blur cv_call X).
Proof.
  unfold predict_blur.
  pres_bind; [pres_leaf |]. intros self.
  pres_bind; [pres_leaf |]. intros h.
  destruct (truthy h (blur self)); [|pres_leaf].
  repeat (pres_bind; [apply grows_dict_get |]; intros ?).
  apply grows_call.
Qed.

Lemma grows_predict_mat_morph mask_ :
  preserves Grows (predict_mat_morph cv_call mask_).
Proof.
  unfold predict_mat_morph.
  pres_bind; [pres_leaf |]. intros self.
  pres_bind; [pres_leaf |]. intros h.
  destruct (truthy h (mat_morph self)); [|pres_leaf].
  pres_bind; [apply grows_iter |]. intros items.
  apply preserves_for_fold; [apply _|]. intros m d.
  unfold predict_mat_morph_entry.
  repeat (pres_bind; [apply grows_dict_get |]; intros ?).
  apply grows_call.
Qed.

Lemma extends_frg_detect_mth_apply X :
  preserves Extends (frg_detect_mth_apply bs_apply X).
Proof.
  intros [h g]. unfold frg_detect_mth_apply.
  destruct (_frg_detect_mth g) as [[v m]|]; [|reflexivity].
  destruct (bs_apply v m (resolve h X)) as [m' [e|a]]; simpl.
  - split; [exists []; simpl; by rewrite app_nil_r | done].
  - split; [by exists [a] | done].
Qed.

Lemma extends_set_motion_mask v : preserves Extends (set_motion_mask v).
Proof. intros [h g]. simpl. split; [exists []; simpl; by rewrite app_nil_r | done]. Qed.

Lemma grows_np_any_motion_mask : preserves Grows np_any_motion_mask.
Proof.
  intros [h g]. unfold np_any_motion_mask.
  destruct (motion_mask_ g); [|reflexivity].
  destruct (resolve h v); reflexivity.
Qed.

Lemma extends_predict X : preserves Extends (Predict X).
Proof.
  unfold predict.
  pres_bind; [apply preserves_grows_extends, grows_predict_blur |]. intros X'.
  pres_bind; [apply extends_frg_detect_mth_apply |]. intros m.
  pres_bind; [apply preserves_grows_extends, grows_predict_mat_morph |]. intros m'.
  pres_bind; [apply extends_set_motion_mask |]. intros _.
  pres_bind; [apply preserves_grows_extends, grows_np_any_motion_mask |]. intros b.
  destruct b; pres_leaf.
Qed.

Lemma predict_tail_mth mask_ (s : state Model) :
  _frg_detect_mth (snd (snd (predict_tail cv_call mask_ s))) = _frg_detect_mth (snd s).
Proof.
  unfold predict_tail. rewrite bind_run.
  pose proof (grows_predict_mat_morph mask_ s) as [_ Hg].
  destruct (predict_mat_morph cv_call mask_ s) as [[e|m1] [h1 g1]]; simpl in *;
    [by rewrite Hg|].
  subst g1. munfold. simpl.
  unfold np_any_motion_mask. simpl.
  destruct (resolve h1 m1); try done. by destruct (np_any a).
Qed.




(** C4.  [predict] never writes to an object that exists when it is
    called: the caller's frame, the configuration dictionaries, the
    operator list and the kernels are what they were (the store only
    gains the arrays the stages return); the attributes [blur],
    [frg_detect] and [mat_morph] of the instance are not reassigned; and
    when [blur] is [None] the background subtractor is applied to the
    input frame itself. *)
Theorem predict_mutates_no_input X h g :
  (forall l o, h !! l = Some o ->
     fst (snd (Predict X (h, g))) !! l = Some o) /\
  same_config g (snd (snd (Predict X (h, g)))) /\
  (forall v m, blur g = None -> _frg_detect_mth g = Some (v, m) ->
     _frg_detect_mth (snd (snd (Predict X (h, g)))) =
       Some (v, fst (bs_apply v m (resolve h X)))).
Proof.
  pose proof (extends_predict X (h, g)) as [[junk Hj] Hc]. simpl in Hj.
  split_and!; [|done|].
  - intros l o Hl. rewrite Hj. by apply lookup_app_l_Some.
  - intros v m Hb Hm. change (Predict X) with
      (predict_blur cv_call X ≫= fun X' =>
       frg_detect_mth_apply bs_apply X' ≫= predict_tail cv_call).
    unfold predict_blur. munfold. simpl. rewrite Hb. simpl.
    rewrite Hm.
    destruct (bs_apply v m (resolve h X)) as [m' [e|a]]; simpl; [done|].
    by rewrite predict_tail_mth.
Qed.


(** Without a subtractor [predict] raises and leaves the instance as it
    was. *)
Lemma predict_unconfigured X h g :
  Unconfigured g ->
  exists e arrs, Predict X (h, g) = (inl e, (h ++ (OArr <$> arrs), g)).
Proof.
  intros Hu. unfold predict. rewrite bind_run.
  pose proof (grows_predict_blur X (h, g)) as [[junk Hj] Hg].
  destruct (predict_blur cv_call X (h, g)) as [[e|X'] [h1 g1]]; simpl in *; subst.
  - by exists e, junk.
  - exists AttributeError, junk. rewrite bind_run.
    unfold frg_detect_mth_apply. by rewrite Hu.
Qed.

(** ** References stay meaningful when the store grows *)

Lemma valid_mono (h h' : heap) v :
  (length h <= length h')%nat -> valid h v -> valid h' v.
Proof. destruct v; simpl; lia. Qed.

Lemma valid_app (h junk : heap) v : valid h v -> valid (h ++ junk) v.
Proof. apply valid_mono. rewrite length_app. lia. Qed.

Lemma closed_obj_mono (h h' : heap) o :
  (length h <= length h')%nat -> closed_obj h o -> closed_obj h' o.
Proof.
  intros Hl. destruct o; simpl; [| |done].
  - intros Hd. eapply map_Forall_impl; [exact Hd|]. intros ? ?. by apply valid_mono.
  - intros Hd. eapply Forall_impl; [exact Hd|]. intros ?. by apply valid_mono.
Qed.

Lemma closed_app_arrays (h : heap) arrs :
  closed h -> closed (h ++ (OArr <$> arrs)).
Proof.
  intros Hc. unfold closed. apply Forall_app. split.
  - eapply Forall_impl; [exact Hc|]. intros o. apply closed_obj_mono.
    rewrite length_app. lia.
  - apply Forall_fmap, Forall_true. done.
Qed.

Lemma closed_lookup (h : heap) l o :
  closed h -> h !! l = Some o -> closed_obj h o.
Proof. intros Hc Hl. eapply Forall_lookup_1; eauto. Qed.

Lemma closed_dict_get (h : heap) l m k :
  closed h -> read_dict h l = Some m -> valid h (default VNone (m !! k)).
Proof.
  unfold read_dict. intros Hc Hl.
  destruct (h !! l) as [[d| |]|] eqn:E; try discriminate. injection Hl as ->.
  apply (closed_lookup _ _ _ Hc) in E. simpl in E.
  destruct (m !! k) eqn:Ek; [|done]. simpl. by eapply E.
Qed.

Lemma closed_read_list (h : heap) l items :
  closed h -> read_list h l = Some items -> Forall (valid h) items.
Proof.
  unfold read_list. intros Hc Hl.
  destruct (h !! l) as [[|its|]|] eqn:E; try discriminate. injection Hl as ->.
  by apply (closed_lookup _ _ _ Hc) in E.
Qed.

Lemma resolve_app (h junk : heap) v :
  valid h v -> resolve (h ++ junk) v = resolve h v.
Proof.
  destruct v; try done. unfold resolve, valid. intros Hl. by rewrite lookup_app_l.
Qed.

Lemma read_dict_app (h junk : heap) l :
  (l < length h)%nat -> read_dict (h ++ junk) l = read_dict h l.
Proof. intros Hl. unfold read_dict. by rewrite lookup_app_l. Qed.

Lemma read_list_app (h junk : heap) l :
  (l < length h)%nat -> read_list (h ++ junk) l = read_list h l.
Proof. intros Hl. unfold read_list. by rewrite lookup_app_l. Qed.

Lemma truthy_app (h junk : heap) r :
  valid h (ref_of r) -> truthy (h ++ junk) r = truthy h r.
Proof.
  destruct r as [l|]; [|done]. unfold truthy, ref_of, valid. intros Hl.
  by rewrite lookup_app_l.
Qed.

Lemma lookup_arg_app (h junk : heap) l m k :
  closed h -> read_dict h l = Some m ->
  lookup_arg (h ++ junk) m k = lookup_arg h m k.
Proof.
  intros Hc Hm. unfold lookup_arg.
  pose proof (closed_dict_get h l m k Hc Hm) as Hv.
  destruct (m !! k); [|done]. simpl in *. by rewrite resolve_app.
Qed.

Lemma entry_cfg_of_app (h junk : heap) d :
  closed h -> valid h d -> entry_cfg_of (h ++ junk) d = entry_cfg_of h d.
Proof.
  intros Hc Hv. destruct d; try done. simpl in *.
  rewrite read_dict_app by done.
  destruct (read_dict h l) as [m|] eqn:Hm; [|done].
  by rewrite !(lookup_arg_app h junk l m).
Qed.

Lemma entries_cfg_of_app (h junk : heap) items :
  closed h -> Forall (valid h) items ->
  entry_cfg_of (h ++ junk) <$> items = entry_cfg_of h <$> items.
Proof.
  intros Hc Hv. apply list_fmap_ext. intros i d Hd.
  apply entry_cfg_of_app; [done|]. eapply Forall_lookup_1; eauto.
Qed.

Lemma blur_cfg_of_app (h junk : heap) r :
  closed h -> valid h (ref_of r) ->
  blur_cfg_of (h ++ junk) r = blur_cfg_of h r.
Proof.
  intros Hc Hv. destruct r as [l|]; [|done]. unfold blur_cfg_of.
  rewrite truthy_app by done. simpl in Hv. rewrite read_dict_app by done.
  destruct (truthy h (Some l)); [|done].
  destruct (read_dict h l) as [m|] eqn:Hm; [|done].
  by rewrite !(lookup_arg_app h junk l m).
Qed.

Lemma mat_morph_cfg_of_app (h junk : heap) r :
  closed h -> valid h (ref_of r) ->
  mat_morph_cfg_of (h ++ junk) r = mat_morph_cfg_of h r.
Proof.
  intros Hc Hv. destruct r as [l|]; [|done]. unfold mat_morph_cfg_of.
  rewrite truthy_app by done. simpl in Hv. rewrite read_list_app by done.
  destruct (truthy h (Some l)); [|done].
  destruct (read_list h l) as [items|] eqn:Hm; [|done].
  rewrite entries_cfg_of_app; eauto using closed_read_list.
Qed.

Lemma wf_extends (s s' : state Model) : wf s -> Extends s s' -> wf s'.
Proof.
  destruct s as [h g], s' as [h' g'].
  intros (Hc & Hb & Hm) [[arrs Hj] (Eb & _ & Em)]. simpl in *. subst h'.
  unfold wf. simpl. rewrite Eb, Em. split_and!.
  - by apply closed_app_arrays.
  - by apply valid_app.
  - by apply valid_app.
Qed.

Lemma config_of_extends (s s' : state Model) :
  wf s -> Extends s s' -> config_of s' = config_of s.
Proof.
  destruct s as [h g], s' as [h' g'].
  intros (Hc & Hb & Hm) [[arrs Hj] (Eb & Ef & Em)]. simpl in *. subst h'.
  unfold config_of. simpl. rewrite Eb, Ef, Em.
  by rewrite blur_cfg_of_app, mat_morph_cfg_of_app.
Qed.

(** ** [predict] computes [process] on the configuration it reads *)

Lemma arg_or_none_lookup (h : heap) m k :
  arg_or_none (lookup_arg h m k) = resolve h (default VNone (m !! k)).
Proof. unfold arg_or_none, lookup_arg. by destruct (m !! k). Qed.

Lemma dict_get_run d k h (g : GOFPID Model) :
  dict_get d k (h, g) =
  match d with
  | VRef l =>
      match read_dict h l with
      | Some m => (inr (default VNone (m !! k)), (h, g))
      | None => (inl AttributeError, (h, g))
      end
  | _ => (inl AttributeError, (h, g))
  end.
Proof.
  unfold dict_get. munfold. simpl. destruct d; try done.
  by destruct (read_dict h l).
Qed.

Lemma call_run f args h (g : GOFPID Model) :
  call cv_call f args (h, g) =
  match call_pure cv_call (resolve h f) (resolve h <$> args) with
  | inl e => (inl e, (h, g))
  | inr a => (inr (VRef (length h)), (h ++ [OArr a], g))
  end.
Proof.
  unfold call, call_pure. munfold. destruct f; simpl; try done.
  - by destruct (cv_call _ _).
  - unfold resolve. by destruct (h !! l) as [[]|].
Qed.

Lemma resolve_new (h : heap) a junk :
  resolve (h ++ OArr a :: junk) (VRef (length h)) = AArr a.
Proof. unfold resolve. by rewrite list_lookup_middle. Qed.

Lemma predict_blur_spec X h (g : GOFPID Model) :
  match denoise cv_call (blur_cfg_of h (blur g)) (resolve h X) with
  | inl e => predict_blur cv_call X (h, g) = (inl e, (h, g))
  | inr x' =>
      exists X' arrs,
        predict_blur cv_call X (h, g) = (inr X', (h ++ (OArr <$> arrs), g)) /\
        resolve (h ++ (OArr <$> arrs)) X' = x'
  end.
Proof.
  unfold predict_blur. munfold. simpl.
  assert (Hoff : exists X' arrs,
    (inr X, (h, g)) = (inr X' : exn + value, (h ++ (OArr <$> arrs), g)) /\
    resolve (h ++ (OArr <$> arrs)) X' = resolve h X).
  { exists X, []. simpl. by rewrite app_nil_r. }
  destruct (blur g) as [l|]; [|done]. unfold blur_cfg_of.
  destruct (truthy h (Some l)); [|done].
  rewrite dict_get_run. simpl.
  destruct (read_dict h l) as [m|] eqn:Hm; [|done].
  do 2 (rewrite dict_get_run; simpl; rewrite Hm; simpl).
  rewrite call_run. simpl. rewrite !arg_or_none_lookup.
  destruct (call_pure cv_call _ _) as [e|a]; [done|].
  exists (VRef (length h)), [a]. split; [done|]. apply resolve_new.
Qed.

Lemma predict_mat_morph_entry_run mask_ d h (g : GOFPID Model) :
  predict_mat_morph_entry cv_call mask_ d (h, g) =
  match entry_cfg_of h d with
  | None => (inl AttributeError, (h, g))
  | Some c =>
      match call_pure cv_call (arg_or_none (m_fun c))
                      [resolve h mask_; arg_or_none (m_kernel c)] with
      | inl e => (inl e, (h, g))
      | inr a => (inr (VRef (length h)), (h ++ [OArr a], g))
      end
  end.
Proof.
  unfold predict_mat_morph_entry. rewrite bind_run, dict_get_run.
  destruct d; try done. simpl.
  destruct (read_dict h l) as [m|] eqn:Hm; [|done].
  rewrite bind_run, dict_get_run, Hm, call_run. simpl.
  by rewrite !arg_or_none_lookup.
Qed.

Lemma for_fold_refine items : forall h (g : GOFPID Model) mask_ raw,
  closed h -> Forall (valid h) items -> resolve h mask_ = AArr raw ->
  match refine cv_call (entry_cfg_of h <$> items) raw with
  | inl e =>
      exists arrs,
        for_fold items (predict_mat_morph_entry cv_call) mask_ (h, g)
        = (inl e, (h ++ (OArr <$> arrs), g))
  | inr mask =>
      exists v arrs,
        for_fold items (predict_mat_morph_entry cv_call) mask_ (h, g)
        = (inr v, (h ++ (OArr <$> arrs), g)) /\
        resolve (h ++ (OArr <$> arrs)) v = AArr mask
  end.
Proof.
  induction items as [|d items IH]; intros h g mask_ raw Hc Hv Hr.
  - simpl. exists mask_, []. simpl. by rewrite app_nil_r.
  - apply Forall_cons in Hv as [Hd Hv].
    cbn [for_fold fmap list_fmap refine].
    rewrite bind_run, predict_mat_morph_entry_run, Hr.
    destruct (entry_cfg_of h d) as [c|].
    2:{ exists []. simpl. by rewrite app_nil_r. }
    destruct (call_pure cv_call _ _) as [e|a].
    { exists []. simpl. by rewrite app_nil_r. }
    specialize (IH (h ++ [OArr a]) g (VRef (length h)) a).
    rewrite (entries_cfg_of_app h [OArr a]) in IH by done.
    assert (Hc' : closed (h ++ [OArr a])) by apply (closed_app_arrays h [a] Hc).
    assert (Hv' : Forall (valid (h ++ [OArr a])) items).
    { eapply Forall_impl; [exact Hv|]. intros ?. apply valid_app. }
    specialize (IH Hc' Hv' (resolve_new h a [])).
    destruct (refine cv_call (entry_cfg_of h <$> items) a) as [e|mask].
    + destruct IH as (arrs & IH).
      exists (a :: arrs). by rewrite IH, <- app_assoc.
    + destruct IH as (v & arrs & IH & Hres).
      exists v, (a :: arrs). rewrite <- app_assoc in Hres.
      by rewrite IH, <- app_assoc.
Qed.

Lemma predict_mat_morph_spec h (g : GOFPID Model) mask_ raw :
  closed h -> resolve h mask_ = AArr raw ->
  match refine_stage cv_call (mat_morph_cfg_of h (mat_morph g)) raw with
  | inl e =>
      exists arrs,
        predict_mat_morph cv_call mask_ (h, g)
        = (inl e, (h ++ (OArr <$> arrs), g))
  | inr mask =>
      exists v arrs,
        predict_mat_morph cv_call mask_ (h, g)
        = (inr v, (h ++ (OArr <$> arrs), g)) /\
        resolve (h ++ (OArr <$> arrs)) v = AArr mask
  end.
Proof.
  intros Hc Hr. unfold predict_mat_morph. munfold. simpl.
  assert (Hoff : exists v (arrs : list ndarray),
    (inr mask_, (h, g)) = (inr v : exn + value, (h ++ (OArr <$> arrs), g)) /\
    resolve (h ++ (OArr <$> arrs)) v = AArr raw).
  { exists mask_, []. simpl. by rewrite app_nil_r. }
  destruct (mat_morph g) as [l|]; [|done]. unfold mat_morph_cfg_of.
  destruct (truthy h (Some l)); [|done].
  unfold iter. munfold. simpl.
  destruct (read_list h l) as [items|] eqn:Hl; simpl.
  - apply for_fold_refine; eauto using closed_read_list.
  - exists []. simpl. by rewrite app_nil_r.
Qed.

Lemma with_results_id (g : GOFPID Model) :
  with_results g (_frg_detect_mth g) (motion_mask_ g) = g.
Proof. by destruct g. Qed.

Lemma predict_process X h (g : GOFPID Model) :
  wf (h, g) ->
  exists arrs,
    match process bs_apply cv_call (config_of (h, g)) (_frg_detect_mth g)
                  (resolve h X) with
    | (mth', inl e) =>
        Predict X (h, g)
        = (inl e, (h ++ (OArr <$> arrs), with_results g mth' (motion_mask_ g)))
    | (mth', inr mask) =>
        exists v,
          Predict X (h, g)
          = (inr (verdict mask),
             (h ++ (OArr <$> arrs), with_results g mth' (Some v))) /\
          resolve (h ++ (OArr <$> arrs)) v = AArr mask
    end.
Proof.
  intros (Hc & Hb & Hm). simpl in Hc, Hb, Hm.
  unfold process, config_of. simpl.
  change (Predict X) with
    (predict_blur cv_call X ≫= fun X' =>
     frg_detect_mth_apply bs_apply X' ≫= predict_tail cv_call).
  rewrite bind_run.
  pose proof (predict_blur_spec X h g) as Hblur.
  destruct (denoise cv_call (blur_cfg_of h (blur g)) (resolve h X)) as [e|x'].
  { rewrite Hblur. exists []. simpl. by rewrite app_nil_r, with_results_id. }
  destruct Hblur as (X' & arrs1 & -> & Hx'). rewrite bind_run.
  unfold frg_detect_mth_apply. rewrite Hx'.
  destruct (_frg_detect_mth g) as [[v m]|] eqn:Hmth.
  2:{ exists arrs1. by rewrite <- Hmth, with_results_id. }
  destruct (bs_apply v m x') as [m' [e|raw]]; simpl.
  { by exists arrs1. }
  set (g1 := mkGOFPID (blur g) (frg_detect g) (mat_morph g) (Some (v, m'))
                      (motion_mask_ g)).
  set (h1 := (h ++ (OArr <$> arrs1)) ++ [OArr raw]).
  assert (Eh1 : h1 = h ++ (OArr <$> (arrs1 ++ [raw]))).
  { unfold h1. by rewrite fmap_app, app_assoc. }
  assert (Hc1 : closed h1) by (rewrite Eh1; by apply closed_app_arrays).
  assert (Hr1 : resolve h1 (VRef (length (h ++ (OArr <$> arrs1)))) = AArr raw)
    by apply resolve_new.
  pose proof (predict_mat_morph_spec h1 g1 _ raw Hc1 Hr1) as Hmm.
  replace (mat_morph_cfg_of h1 (mat_morph g1))
    with (mat_morph_cfg_of h (mat_morph g)) in Hmm
    by (rewrite Eh1; symmetry; by apply mat_morph_cfg_of_app).
  unfold predict_tail. rewrite bind_run.
  destruct (refine_stage cv_call (mat_morph_cfg_of h (mat_morph g)) raw)
    as [e|mask].
  - destruct Hmm as (arrs2 & ->). exists ((arrs1 ++ [raw]) ++ arrs2).
    rewrite Eh1. by rewrite (fmap_app _ (arrs1 ++ [raw])), app_assoc.
  - destruct Hmm as (v1 & arrs2 & -> & Hres). exists ((arrs1 ++ [raw]) ++ arrs2).
    exists v1. munfold. simpl. unfold np_any_motion_mask. simpl.
    rewrite Hres. rewrite Eh1 in *.
    rewrite (fmap_app _ (arrs1 ++ [raw])), app_assoc. split; [|done].
    unfold verdict. by destruct (np_any mask).
Qed.

Lemma predict_seq_process Xs : forall h (g : GOFPID Model),
  wf (h, g) -> Forall (valid h) Xs ->
  fst (Predict_seq Xs (h, g))
  = process_seq bs_apply cv_call (config_of (h, g)) (_frg_detect_mth g)
                (resolve h <$> Xs).
Proof.
  induction Xs as [|X Xs IH]; intros h g Hwf Hv; [done|].
  apply Forall_cons in Hv as [HX Hv].
  cbn [predict_seq process_seq fmap list_fmap].
  pose proof (extends_predict X (h, g)) as Hext.
  pose proof (wf_extends _ _ Hwf Hext) as Hwf'.
  pose proof (config_of_extends _ _ Hwf Hext) as Hcfg.
  destruct (predict_process X h g Hwf) as (arrs & Hp).
  destruct (process bs_apply cv_call (config_of (h, g)) (_frg_detect_mth g)
                    (resolve h X)) as [mth' [e|mask]].
  - rewrite Hp in *. simpl in *.
    specialize (IH _ _ Hwf'). rewrite Hcfg in IH.
    destruct (Predict_seq Xs _) as [rs s2]. simpl in *. f_equal.
    rewrite IH.
    + f_equal. apply list_fmap_ext. intros i x Hx. apply resolve_app.
      eapply Forall_lookup_1; eauto.
    + eapply Forall_impl; [exact Hv|]. intros ?. apply valid_app.
  - destruct Hp as (v & Hp & _). rewrite Hp in *. simpl in *.
    specialize (IH _ _ Hwf'). rewrite Hcfg in IH.
    destruct (Predict_seq Xs _) as [rs s2]. simpl in *. f_equal.
    rewrite IH.
    + f_equal. apply list_fmap_ext. intros i x Hx. apply resolve_app.
      eapply Forall_lookup_1; eauto.
    + eapply Forall_impl; [exact Hv|]. intros ?. apply valid_app.
Qed.

Lemma processing_extends (s0 s : state Model) :
  processing bs_apply cv_call s0 s -> Extends s0 s.
Proof.
  induction 1 as [|s X r s' _ IH Hp]; [reflexivity|].
  etrans; [exact IH|]. pose proof (extends_predict X s) as He.
  by rewrite Hp in He.
Qed.

(** ** What [fit] does to the store *)

Lemma defaulted_refl (h : heap) o : defaulted h o o.
Proof.
  destruct o; simpl; try done. split_and!; [done|done|].
  intros k v Hn Hs. congruence.
Qed.

Lemma is_default_mono (h h' : heap) k v :
  fit_heap h h' -> is_default h k v -> is_default h' k v.
Proof.
  intros (_ & Hh & _) [?|[?|(-> & l & -> & Hl)]]; [by left|by right; left|].
  right; right. split; [done|]. exists l. split; [done|].
  destruct (Hh _ _ Hl) as (o' & Ho' & Hd). simpl in Hd. by subst.
Qed.

Lemma is_default_not_fun (h : heap) v : ~ is_default h "fun" v.
Proof. intros [[? _]|[[? _]|[? _]]]; discriminate. Qed.

#[local] Instance fit_heap_preorder : PreOrder fit_heap.
Proof.
  split.
  - intros h. split_and!; [done| |done]. intros l o Hl. exists o.
    split; [done|]. apply defaulted_refl.
  - intros h1 h2 h3 H12 H23. pose proof H12 as (L12 & O12 & C12).
    pose proof H23 as (L23 & O23 & C23). split_and!; [lia| |by auto].
    intros l o1 Hl. destruct (O12 _ _ Hl) as (o2 & Hl2 & D12).
    destruct (O23 _ _ Hl2) as (o3 & Hl3 & D23). exists o3. split; [done|].
    destruct o1 as [m1| |]; simpl in D12.
    2,3: subst o2; simpl in D23; by subst o3.
    destruct o2 as [m2| |]; try done.
    destruct o3 as [m3| |]; try done. simpl in *.
    destruct D12 as (S12 & E12 & N12), D23 as (S23 & E23 & N23).
    split_and!; [by etrans | by auto |].
    intros k v Hn Hs. destruct (m2 !! k) as [v2|] eqn:E2.
    + pose proof (lookup_weaken _ _ _ _ E2 S23) as E3.
      rewrite Hs in E3. injection E3 as ->.
      eapply is_default_mono; [exact H23 | by apply N12].
    + by apply N23.
Qed.

#[local] Instance fit_rel_preorder : PreOrder (fit_rel (Model := Model)).
Proof.
  split.
  - intros [h g]. by split_and!.
  - intros [h1 g1] [h2 g2] [h3 g3] (H1 & (A1 & B1 & C1) & M1)
      (H2 & (A2 & B2 & C2) & M2). simpl in *.
    split_and!; simpl; [by etrans| |congruence].
    unfold same_config. split_and!; congruence.
Qed.

#[local] Instance fit_rel_mth_preorder : PreOrder (fit_rel_mth (Model := Model)).
Proof.
  split.
  - intros [h g]. by split.
  - intros [h1 g1] [h2 g2] [h3 g3] [H1 E1] [H2 E2]. simpl in *.
    split; simpl; [by etrans | congruence].
Qed.

Lemma fit_rel_mth_fit_rel (s s' : state Model) : fit_rel_mth s s' -> fit_rel s s'.
Proof.
  destruct s as [h g], s' as [h' g']. intros [H1 H2]. simpl in *. subst g'.
  by split_and!.
Qed.

Lemma fit_heap_app_array (h : heap) a : fit_heap h (h ++ [OArr a]).
Proof.
  split_and!; [rewrite length_app; lia| |apply (closed_app_arrays h [a])].
  intros l o Hl. exists o.
  split; [by apply lookup_app_l_Some | apply defaulted_refl].
Qed.

Lemma fit_heap_insert (h : heap) l m k v :
  read_dict h l = Some m -> m !! k = None -> m <> ∅ -> is_default h k v ->
  fit_heap h (<[l := ODict (<[k := v]> m)]> h).
Proof.
  unfold read_dict. intros Hl Hk Hne Hd.
  destruct (h !! l) as [[m0| |]|] eqn:El; try discriminate. injection Hl as ->.
  assert (Hdef : forall lk a, h !! lk = Some (OArr a) ->
            <[l := ODict (<[k := v]> m)]> h !! lk = Some (OArr a)).
  { intros lk a Hlk. rewrite list_lookup_insert_ne; [done|]. congruence. }
  split_and!; [by rewrite length_insert| |].
  2:{ intros Hc. unfold closed. apply Forall_insert.
      - eapply Forall_impl; [exact Hc|]. intros o. apply closed_obj_mono.
        by rewrite length_insert.
      - pose proof (closed_lookup _ _ _ Hc El) as Hm. simpl in *.
        apply map_Forall_insert_2.
        + apply (valid_mono h); [by rewrite length_insert|].
          destruct Hd as [[_ ->]|[[_ ->]|(_ & lk & -> & Hlk)]]; try done.
          simpl. by eapply lookup_lt_Some.
        + eapply map_Forall_impl; [exact Hm|]. intros ? ?. apply valid_mono.
          by rewrite length_insert. }
  intros l' o Hl'.
  destruct (decide (l = l')) as [<-|Hne'].
  - rewrite El in Hl'. injection Hl' as <-.
    exists (ODict (<[k := v]> m)). split.
    + apply list_lookup_insert_eq. by eapply lookup_lt_Some.
    + simpl. split_and!; [by apply insert_subseteq | done |].
      intros k' v' Hn Hs. destruct (decide (k = k')) as [<-|Hk'].
      * rewrite lookup_insert_eq in Hs. injection Hs as <-.
        destruct Hd as [?|[?|(-> & lk & -> & Hlk)]]; [by left|by right; left|].
        right; right. split; [done|]. exists lk. split; [done|]. by apply Hdef.
      * rewrite lookup_insert_ne in Hs by done. congruence.
  - exists o. split; [by rewrite list_lookup_insert_ne | apply defaulted_refl].
Qed.

(** What a store that [fit] has worked on still tells about the store
    before. *)
Section fit_heap_facts.
Context (h h' : heap) (Hfit : fit_heap h h').

Lemma fit_heap_valid v : valid h v -> valid h' v.
Proof. apply valid_mono, Hfit. Qed.

Lemma fit_heap_read_dict l m :
  read_dict h l = Some m ->
  exists m', read_dict h' l = Some m' /\ m ⊆ m' /\ (m = ∅ -> m' = ∅) /\
    forall k v, m !! k = None -> m' !! k = Some v -> is_default h' k v.
Proof.
  unfold read_dict. intros Hl.
  destruct (h !! l) as [[m0| |]|] eqn:El; try discriminate. injection Hl as ->.
  destruct Hfit as (_ & Ho & _). destruct (Ho _ _ El) as (o' & -> & Hd).
  destruct o' as [m'| |]; try done. by exists m'.
Qed.

Lemma fit_heap_read_dict_None l :
  (l < length h)%nat -> read_dict h l = None -> read_dict h' l = None.
Proof.
  unfold read_dict. intros Hlt Hl.
  destruct (lookup_lt_is_Some_2 _ _ Hlt) as [o El]. rewrite El in Hl.
  destruct Hfit as (_ & Ho & _). destruct (Ho _ _ El) as (o' & -> & Hd).
  destruct o; try discriminate; simpl in Hd; by subst o'.
Qed.

Lemma fit_heap_read_list l :
  (l < length h)%nat -> read_list h' l = read_list h l.
Proof.
  unfold read_list. intros Hlt.
  destruct (lookup_lt_is_Some_2 _ _ Hlt) as [o El]. rewrite El.
  destruct Hfit as (_ & Ho & _). destruct (Ho _ _ El) as (o' & -> & Hd).
  destruct o; simpl in Hd; [by destruct o'| by subst o' ..].
Qed.

Lemma fit_heap_resolve v : valid h v -> resolve h' v = resolve h v.
Proof.
  destruct v; try done. unfold valid, resolve. intros Hlt.
  destruct (lookup_lt_is_Some_2 _ _ Hlt) as [o El]. rewrite El.
  destruct Hfit as (_ & Ho & _). destruct (Ho _ _ El) as (o' & -> & Hd).
  destruct o; simpl in Hd; [by destruct o'| by subst o' ..].
Qed.

Lemma fit_heap_truthy r : valid h (ref_of r) -> truthy h' r = truthy h r.
Proof.
  destruct r as [l|]; [|done]. unfold valid, ref_of, truthy. intros Hlt.
  destruct (lookup_lt_is_Some_2 _ _ Hlt) as [o El]. rewrite El.
  destruct Hfit as (_ & Ho & _). destruct (Ho _ _ El) as (o' & -> & Hd).
  destruct o as [m| |]; simpl in Hd; [|by subst o' ..].
  destruct o' as [m'| |]; try done. destruct Hd as (Hs & He & _).
  apply bool_decide_ext. split; intros Hne.
  - intros ->. apply Hne. by apply He.
  - intros ->. apply Hne. apply map_empty. intros k.
    destruct (m !! k) eqn:Ek; [|done].
    by apply (lookup_weaken _ _ _ _ Ek) in Hs.
Qed.

Lemma fit_heap_has_keys d ks : has_keys h d ks -> has_keys h' d ks.
Proof.
  intros (l & m & -> & Hm & Hks).
  destruct (fit_heap_read_dict _ _ Hm) as (m' & Hm' & Hs & _).
  exists l, m'. split_and!; [done|done|].
  eapply Forall_impl; [exact Hks|]. intros k [v Hv].
  exists v. by eapply lookup_weaken.
Qed.

Context (Hc : closed h).

Lemma fit_heap_lookup_fun l m m' :
  read_dict h l = Some m -> read_dict h' l = Some m' ->
  lookup_arg h' m' "fun" = lookup_arg h m "fun".
Proof.
  intros Hm Hm'. destruct (fit_heap_read_dict _ _ Hm) as (m2 & E & Hs & _ & Hn).
  rewrite Hm' in E. injection E as <-. unfold lookup_arg.
  pose proof (closed_dict_get h l m "fun" Hc Hm) as Hv.
  destruct (m !! "fun") as [v|] eqn:Ek.
  - rewrite (lookup_weaken _ _ _ _ Ek Hs). simpl in *.
    by rewrite fit_heap_resolve.
  - destruct (m' !! "fun") as [v'|] eqn:Ek'; [|done].
    by destruct (is_default_not_fun h' v' (Hn _ _ Ek Ek')).
Qed.

Lemma fit_heap_lookup_default l m m' k dflt :
  read_dict h l = Some m -> read_dict h' l = Some m' ->
  (forall v, is_default h' k v -> resolve h' v = dflt) ->
  is_Some (m' !! k) ->
  lookup_arg h' m' k = Some (default dflt (lookup_arg h m k)).
Proof.
  intros Hm Hm' Hd [v' Ek'].
  destruct (fit_heap_read_dict _ _ Hm) as (m2 & E & Hs & _ & Hn).
  rewrite Hm' in E. injection E as <-. unfold lookup_arg.
  pose proof (closed_dict_get h l m k Hc Hm) as Hv.
  destruct (m !! k) as [v|] eqn:Ek.
  - rewrite (lookup_weaken _ _ _ _ Ek Hs). simpl in *.
    by rewrite fit_heap_resolve.
  - rewrite Ek'. simpl. f_equal. apply Hd. by eapply Hn.
Qed.

Lemma fit_heap_entry_status d :
  valid h d ->
  status (check_entry (entry_cfg_of h' d)) = status (check_entry (entry_cfg_of h d)).
Proof.
  destruct d; try done. unfold valid, entry_cfg_of. intros Hlt.
  destruct (read_dict h l) as [m|] eqn:Hm.
  - destruct (fit_heap_read_dict _ _ Hm) as (m' & Hm' & _).
    rewrite Hm'. simpl. rewrite (fit_heap_lookup_fun l m m') by done.
    by destruct (lookup_arg h m "fun").
  - by rewrite fit_heap_read_dict_None.
Qed.

Lemma fit_heap_entries_status items :
  Forall (valid h) items ->
  status (check_entries (entry_cfg_of h' <$> items))
  = status (check_entries (entry_cfg_of h <$> items)).
Proof.
  induction 1 as [|d items Hd Hv IH]; [done|].
  rewrite !fmap_cons. cbn [check_entries].
  pose proof (fit_heap_entry_status d Hd) as Hs.
  destruct (check_entry (entry_cfg_of h' d)),
           (check_entry (entry_cfg_of h d)); cbn in Hs |- *; try done.
  destruct (check_entries (entry_cfg_of h' <$> items)),
           (check_entries (entry_cfg_of h <$> items)); cbn in IH |- *; done.
Qed.

Lemma fit_heap_mat_morph_status r :
  valid h (ref_of r) ->
  status (check_mat_morph (mat_morph_cfg_of h' r))
  = status (check_mat_morph (mat_morph_cfg_of h r)).
Proof.
  intros Hr. destruct r as [l|]; [|done]. unfold mat_morph_cfg_of.
  rewrite fit_heap_truthy by done. destruct (truthy h (Some l)); [|done].
  rewrite fit_heap_read_list by done.
  destruct (read_list h l) as [items|] eqn:Hl; [|done]. cbn [check_mat_morph].
  pose proof (fit_heap_entries_status items (closed_read_list _ _ _ Hc Hl)) as Hs.
  destruct (check_entries (entry_cfg_of h' <$> items)),
           (check_entries (entry_cfg_of h <$> items)); cbn in Hs |- *; done.
Qed.

End fit_heap_facts.

(** ** The stages of [fit] *)

Lemma has_key_run d k h (g : GOFPID Model) :
  has_key d k (h, g) =
  match d with
  | VRef l =>
      match read_dict h l with
      | Some m => (inr (bool_decide (is_Some (m !! k))), (h, g))
      | None => (inl AttributeError, (h, g))
      end
  | _ => (inl AttributeError, (h, g))
  end.
Proof.
  unfold has_key. munfold. simpl. destruct d; try done.
  by destruct (read_dict h l).
Qed.

Lemma has_key_Some (m : gmap string value) k v :
  m !! k = Some v -> bool_decide (is_Some (m !! k)) = true.
Proof. intros ->. by apply bool_decide_eq_true_2. Qed.

Lemma has_key_None (m : gmap string value) k :
  m !! k = None -> bool_decide (is_Some (m !! k)) = false.
Proof. intros ->. apply bool_decide_eq_false_2. by intros [? ?]. Qed.

Lemma dict_nonempty (m : gmap string value) k v : m !! k = Some v -> m <> ∅.
Proof. intros Hk ->. by rewrite lookup_empty in Hk. Qed.

Lemma read_dict_insert (h : heap) l m m' :
  read_dict h l = Some m -> read_dict (<[l := ODict m']> h) l = Some m'.
Proof.
  unfold read_dict. intros Hl. rewrite list_lookup_insert_eq; [done|].
  destruct (h !! l) eqn:E; [by eapply lookup_lt_Some | done].
Qed.

Lemma read_dict_lt (h : heap) l m : read_dict h l = Some m -> (l < length h)%nat.
Proof.
  unfold read_dict. destruct (h !! l) eqn:E; [|done]. intros _.
  by eapply lookup_lt_Some.
Qed.

Lemma fit_mat_morph_entry_run d h (g : GOFPID Model) :
  fit_mat_morph_entry d (h, g) =
  match d with
  | VRef l =>
      match read_dict h l with
      | Some m =>
          match m !! "fun", m !! "kernel" with
          | None, _ => (inl (ValueError msg_mat_morph_no_fun), (h, g))
          | Some _, Some _ => (inr tt, (h, g))
          | Some _, None =>
              (inr tt,
               (<[l := ODict (<["kernel" := VRef (length h)]> m)]>
                  (h ++ [OArr (getStructuringElement_RECT 5 5)]), g))
          end
      | None => (inl AttributeError, (h, g))
      end
  | _ => (inl AttributeError, (h, g))
  end.
Proof.
  unfold fit_mat_morph_entry. rewrite bind_run, has_key_run.
  destruct d; try done.
  destruct (read_dict h l) as [m|] eqn:Hm; [|done].
  destruct (m !! "fun") as [f|] eqn:Hf; [|done].
  cbn [bool_decide decide_rel is_Some_dec negb].
  rewrite bind_run, has_key_run, Hm.
  destruct (m !! "kernel") as [k|] eqn:Hk; [done|].
  cbn [bool_decide decide_rel is_Some_dec negb]. rewrite bind_run.
  unfold alloc, setitem.
  by rewrite read_dict_app, Hm by (by eapply read_dict_lt).
Qed.

Lemma fit_mat_morph_entry_spec d h (g : GOFPID Model) r s' :
  fit_mat_morph_entry d (h, g) = (r, s') ->
  fit_rel_mth (h, g) s' /\
  r = status (check_entry (entry_cfg_of h d)) /\
  (r = inr tt -> has_keys (fst s') d ["fun"; "kernel"]).
Proof.
  rewrite fit_mat_morph_entry_run. unfold entry_cfg_of.
  destruct d; try (intros [= <- <-]; by split_and!).
  destruct (read_dict h l) as [m|] eqn:Hm;
    [|intros [= <- <-]; by split_and!].
  unfold lookup_arg. simpl.
  destruct (m !! "fun") as [f|] eqn:Hf;
    [|intros [= <- <-]; by split_and!].
  destruct (m !! "kernel") as [k|] eqn:Hk; intros [= <- <-]; simpl.
  - split_and!; [done|done|]. intros _. exists l, m.
    split_and!; [done|done|]. repeat constructor; by eexists.
  - set (h1 := h ++ [OArr (getStructuringElement_RECT 5 5)]).
    assert (Hm1 : read_dict h1 l = Some m).
    { unfold h1. rewrite read_dict_app; [done | by eapply read_dict_lt]. }
    split_and!; [|done|].
    + split; [|done]. simpl. etrans; [apply fit_heap_app_array|].
      apply fit_heap_insert; [done|done|by eapply dict_nonempty|].
      right; right. split; [done|]. eexists. split; [done|].
      unfold h1. by rewrite list_lookup_middle.
    + intros _. eexists l, _. split_and!; [done|by eapply read_dict_insert|].
      repeat constructor.
      * exists f. by rewrite lookup_insert_ne.
      * eexists. by rewrite lookup_insert_eq.
Qed.

Lemma fit_entries_spec items : forall h (g : GOFPID Model) r s',
  closed h -> Forall (valid h) items ->
  for_each items fit_mat_morph_entry (h, g) = (r, s') ->
  fit_rel_mth (h, g) s' /\
  r = status (check_entries (entry_cfg_of h <$> items)) /\
  (r = inr tt -> Forall (fun d => has_keys (fst s') d ["fun"; "kernel"]) items).
Proof.
  induction items as [|d items IH]; intros h g r s' Hc Hv.
  - intros [= <- <-]. by split_and!.
  - apply Forall_cons in Hv as [Hd Hv].
    cbn [for_each]. rewrite bind_run, fmap_cons. cbn [check_entries].
    destruct (fit_mat_morph_entry d (h, g)) as [r1 [h1 g1]] eqn:E1.
    apply fit_mat_morph_entry_spec in E1 as ([Hfh Hg] & Hr1 & Hk1).
    simpl in Hfh, Hg, Hk1. subst g1.
    destruct r1 as [e|[]].
    + intros [= <- <-].
      destruct (check_entry (entry_cfg_of h d)); [|done].
      split_and!; [by split|done|done].
    + intros Hrest.
      assert (Hc1 : closed h1) by by apply Hfh.
      assert (Hv1 : Forall (valid h1) items).
      { eapply Forall_impl; [exact Hv|]. intros ?. by apply fit_heap_valid. }
      apply IH in Hrest as ([Hfh' Hg'] & Hr & Hk); [|done|done].
      simpl in Hfh', Hg'.
      rewrite (fit_heap_entries_status h h1) in Hr by done.
      destruct (check_entry (entry_cfg_of h d)); [done|].
      split_and!.
      * split; [by etrans | done].
      * rewrite Hr.
        by destruct (check_entries (entry_cfg_of h <$> items)).
      * intros ->. constructor; [|by apply Hk].
        eapply fit_heap_has_keys; [exact Hfh' | by apply Hk1].
Qed.

Lemma fit_mat_morph_spec h (g : GOFPID Model) r s' :
  wf (h, g) ->
  fit_mat_morph (h, g) = (r, s') ->
  fit_rel_mth (h, g) s' /\
  r = status (check_mat_morph (mat_morph_cfg_of h (mat_morph g))) /\
  (r = inr tt -> mat_morph_ok (fst s') (mat_morph g)).
Proof.
  intros (Hc & _ & Hm). simpl in Hc, Hm.
  unfold fit_mat_morph, mat_morph_cfg_of, mat_morph_ok. munfold. simpl.
  destruct (mat_morph g) as [l|] eqn:Hl; simpl.
  2:{ intros [= <- <-]. split_and!; [done|done|by left]. }
  destruct (truthy h (Some l)) eqn:Ht.
  2:{ intros [= <- <-]. split_and!; [done|done|by left]. }
  unfold iter. munfold. simpl.
  destruct (read_list h l) as [items|] eqn:Hitems; simpl.
  2:{ intros [= <- <-]. by split_and!. }
  intros Hrun.
  apply fit_entries_spec in Hrun as (Hrel & Hr & Hk);
    [|done|by eapply closed_read_list].
  split_and!; [done| |].
  - rewrite Hr. by destruct (check_entries (entry_cfg_of h <$> items)).
  - intros ->. right. exists l, items. split_and!; [done| |by apply Hk].
    destruct Hrel as [Hfh _]. by rewrite (fit_heap_read_list h).
Qed.

Lemma fit_blur_spec h (g : GOFPID Model) r s' :
  fit_blur (h, g) = (r, s') ->
  fit_rel_mth (h, g) s' /\
  r = status (check_blur (blur_cfg_of h (blur g))) /\
  (r = inr tt -> blur_ok (fst s') (blur g)).
Proof.
  unfold fit_blur, blur_cfg_of, blur_ok. munfold. simpl.
  destruct (blur g) as [l|] eqn:Hl; simpl.
  2:{ intros [= <- <-]. split_and!; [done|done|by left]. }
  destruct (truthy h (Some l)) eqn:Ht.
  2:{ intros [= <- <-]. split_and!; [done|done|by left]. }
  rewrite has_key_run.
  destruct (read_dict h l) as [m|] eqn:Hm; simpl.
  2:{ intros [= <- <-]. by split_and!. }
  unfold lookup_arg.
  destruct (m !! "fun") as [f|] eqn:Hf; simpl.
  2:{ intros [= <- <-]. by split_and!. }
  pose proof (dict_nonempty _ _ _ Hf) as Hne.
  rewrite has_key_run, Hm.
  (* ksize *)
  set (m1 := match m !! "ksize" with
             | Some _ => m
             | None => <["ksize" := VPair 3 3]> m
             end).
  set (h1 := match m !! "ksize" with
             | Some _ => h
             | None => <[l := ODict m1]> h
             end).
  assert (H1 : fit_heap h h1 /\ read_dict h1 l = Some m1 /\ m ⊆ m1 /\
               is_Some (m1 !! "ksize")).
  { unfold h1, m1. destruct (m !! "ksize") eqn:Hk.
    - split_and!; [done|done|done|by eexists].
    - split_and!.
      + apply fit_heap_insert; [done|done|done|by left].
      + by eapply read_dict_insert.
      + by apply insert_subseteq.
      + eexists. apply lookup_insert_eq. }
  destruct H1 as (Hfh1 & Hm1 & Hs1 & Hk1).
  assert (Hstep1 :
    (if negb (bool_decide (is_Some (m !! "ksize")))
     then setitem (Model := Model) (VRef l) "ksize" (VPair 3 3)
     else mret tt) (h, g) = (inr tt, (h1, g))).
  { unfold h1, m1, setitem. destruct (m !! "ksize"); simpl; [done|].
    by rewrite Hm. }
  unfold mret, M_ret in Hstep1. rewrite Hstep1. rewrite has_key_run, Hm1.
  pose proof (dict_nonempty _ _ _ (lookup_weaken _ _ _ _ Hf Hs1)) as Hne1.
  destruct (m1 !! "borderType") as [bt|] eqn:Hbt; simpl.
  - intros [= <- <-]. split_and!; [by split|done|].
    intros _. right. exists l, m1. split_and!; [done|done|].
    repeat constructor; [|done|by eexists].
    exists f. by eapply lookup_weaken.
  - unfold setitem. rewrite Hm1. intros [= <- <-]. split_and!; [|done|].
    + split; [|done]. simpl. etrans; [exact Hfh1|].
      apply fit_heap_insert; [done|done|done|by right; left].
    + intros _. right. eexists l, _. simpl.
      split_and!; [done|by eapply read_dict_insert|].
      destruct Hk1 as [ks Hks]. repeat constructor.
      * exists f. rewrite lookup_insert_ne by done. by eapply lookup_weaken.
      * exists ks. by rewrite lookup_insert_ne.
      * eexists. apply lookup_insert_eq.
Qed.

Lemma fit_frg_detect_run h (g : GOFPID Model) :
  fit_frg_detect createBackgroundSubtractor (h, g) =
  match check_frg_detect (frg_detect g) with
  | inl e => (inl e, (h, g))
  | inr v =>
      (inr tt,
       (h, with_results g (Some (v, createBackgroundSubtractor v))
                        (motion_mask_ g)))
  end.
Proof.
  unfold fit_frg_detect, check_frg_detect. munfold. simpl.
  by repeat case_decide.
Qed.

(** ** The configuration [fit] leaves *)

Lemma is_default_ksize (h : heap) v :
  is_default h "ksize" v -> resolve h v = AImm (VPair 3 3).
Proof. by intros [[_ ->]|[[? _]|[? _]]]. Qed.

Lemma is_default_borderType (h : heap) v :
  is_default h "borderType" v -> resolve h v = AImm (VInt BORDER_DEFAULT).
Proof. by intros [[? _]|[[_ ->]|[? _]]]. Qed.

Lemma is_default_kernel (h : heap) v :
  is_default h "kernel" v -> resolve h v = AArr (getStructuringElement_RECT 5 5).
Proof.
  intros [[? _]|[[? _]|(_ & l & -> & Hl)]]; try done.
  unfold resolve. by rewrite Hl.
Qed.

Lemma has_keys_inv (h : heap) l m ks k :
  has_keys h (VRef l) ks -> read_dict h l = Some m -> k ∈ ks ->
  is_Some (m !! k).
Proof.
  intros (l' & m' & [= <-] & Hm' & Hks) Hm Hk.
  rewrite Hm in Hm'. injection Hm' as <-.
  by eapply Forall_forall in Hks.
Qed.

Lemma blur_cfg_transfer (h h' : heap) r b' :
  fit_heap h h' -> closed h -> valid h (ref_of r) ->
  check_blur (blur_cfg_of h r) = inr b' -> blur_ok h' r ->
  blur_cfg_of h' r = b'.
Proof.
  intros Hfh Hc Hv Hchk Hok. destruct r as [l|]; [|by injection Hchk].
  unfold blur_cfg_of in *. rewrite (fit_heap_truthy h h') by done.
  destruct Hok as [Hok|Hok].
  { rewrite (fit_heap_truthy h h') in Hok by done. rewrite Hok in *.
    by injection Hchk. }
  destruct (truthy h (Some l)); [|by injection Hchk].
  destruct (read_dict h l) as [m|] eqn:Hm; [|done].
  destruct (fit_heap_read_dict h h' Hfh _ _ Hm) as (m' & Hm' & _).
  rewrite Hm'. simpl in Hchk.
  destruct (lookup_arg h m "fun") as [f|] eqn:Hf; [|done].
  injection Hchk as <-. f_equal. f_equal.
  - by rewrite (fit_heap_lookup_fun h h' Hfh Hc l m m').
  - apply (fit_heap_lookup_default h h' Hfh Hc l); try done.
    + apply is_default_ksize.
    + eapply has_keys_inv; [exact Hok|done|set_solver].
  - apply (fit_heap_lookup_default h h' Hfh Hc l); try done.
    + apply is_default_borderType.
    + eapply has_keys_inv; [exact Hok|done|set_solver].
Qed.

Lemma entry_cfg_transfer (h h' : heap) d e' :
  fit_heap h h' -> closed h -> valid h d ->
  check_entry (entry_cfg_of h d) = inr e' -> has_keys h' d ["fun"; "kernel"] ->
  entry_cfg_of h' d = e'.
Proof.
  intros Hfh Hc Hv Hchk Hok. destruct d; try done.
  unfold entry_cfg_of in *.
  destruct (read_dict h l) as [m|] eqn:Hm; [|done].
  destruct (fit_heap_read_dict h h' Hfh _ _ Hm) as (m' & Hm' & _).
  rewrite Hm'. simpl in Hchk.
  destruct (lookup_arg h m "fun") as [f|] eqn:Hf; [|done].
  injection Hchk as <-. f_equal. f_equal.
  - by rewrite (fit_heap_lookup_fun h h' Hfh Hc l m m').
  - apply (fit_heap_lookup_default h h' Hfh Hc l); try done.
    + apply is_default_kernel.
    + eapply has_keys_inv; [exact Hok|done|set_solver].
Qed.

Lemma entries_cfg_transfer (h h' : heap) items : forall es',
  fit_heap h h' -> closed h -> Forall (valid h) items ->
  check_entries (entry_cfg_of h <$> items) = inr es' ->
  Forall (fun d => has_keys h' d ["fun"; "kernel"]) items ->
  entry_cfg_of h' <$> items = es'.
Proof.
  induction items as [|d items IH]; intros es' Hfh Hc Hv Hchk Hok.
  - by injection Hchk.
  - apply Forall_cons in Hv as [Hd Hv]. apply Forall_cons in Hok as [Hokd Hok].
    rewrite fmap_cons in Hchk. cbn [check_entries] in Hchk.
    destruct (check_entry (entry_cfg_of h d)) as [|e'] eqn:He; [done|].
    destruct (check_entries (entry_cfg_of h <$> items)) as [|es''] eqn:Hes;
      [done|].
    injection Hchk as <-. rewrite fmap_cons. f_equal.
    + by eapply entry_cfg_transfer.
    + by apply IH.
Qed.

Lemma mat_morph_cfg_transfer (h h' : heap) r m' :
  fit_heap h h' -> closed h -> valid h (ref_of r) ->
  check_mat_morph (mat_morph_cfg_of h r) = inr m' -> mat_morph_ok h' r ->
  mat_morph_cfg_of h' r = m'.
Proof.
  intros Hfh Hc Hv Hchk Hok. destruct r as [l|]; [|by injection Hchk].
  unfold mat_morph_cfg_of in *. rewrite (fit_heap_truthy h h') by done.
  destruct Hok as [Hok|(l' & items' & [= <-] & Hl' & Hok)].
  { rewrite (fit_heap_truthy h h') in Hok by done. rewrite Hok in *.
    by injection Hchk. }
  destruct (truthy h (Some l)); [|by injection Hchk].
  rewrite (fit_heap_read_list h h') in Hl' |- * by done. rewrite Hl' in *.
  cbn [check_mat_morph] in Hchk.
  destruct (check_entries (entry_cfg_of h <$> items')) as [|es'] eqn:Hes;
    [done|].
  injection Hchk as <-. f_equal.
  eapply entries_cfg_transfer; eauto using closed_read_list.
Qed.

Lemma blur_ok_fit_heap (h h' : heap) r :
  fit_heap h h' -> valid h (ref_of r) -> blur_ok h r -> blur_ok h' r.
Proof.
  intros Hfh Hv [Hok|Hok]; [left|right].
  - by rewrite (fit_heap_truthy h h').
  - by eapply fit_heap_has_keys.
Qed.

Lemma fit_spec h (g : GOFPID Model) r s' :
  wf (h, g) -> Fit (h, g) = (r, s') ->
  fit_rel (h, g) s' /\ wf s' /\
  r = status (check_config (config_of (h, g))) /\
  (forall v c', check_config (config_of (h, g)) = inr (v, c') ->
     config_of s' = c') /\
  _frg_detect_mth (snd s') =
    match check_blur (blur_cfg_of h (blur g)),
          check_frg_detect (frg_detect g) with
    | inr _, inr v => Some (v, createBackgroundSubtractor v)
    | _, _ => _frg_detect_mth g
    end /\
  (forall b', check_blur (blur_cfg_of h (blur g)) = inr b' ->
     blur_ok (fst s') (blur g)) /\
  (r = inr tt -> mat_morph_ok (fst s') (mat_morph g)).
Proof.
  intros (Hc & Hvb & Hvm). simpl in Hc, Hvb, Hvm.
  unfold fit, check_config, config_of. simpl. rewrite bind_run.
  destruct (fit_blur (h, g)) as [r1 [h1 g1]] eqn:E1.
  apply fit_blur_spec in E1 as ([Hfh1 Hg1] & Hr1 & Hok1).
  simpl in Hfh1, Hg1, Hok1. subst g1.
  assert (Hwf1 : forall g', same_config g g' -> wf (h1, g')).
  { intros g' (Eb & _ & Em). unfold wf. simpl. rewrite Eb, Em.
    split_and!; [by apply Hfh1 | by eapply fit_heap_valid ..]. }
  destruct (check_blur (blur_cfg_of h (blur g))) as [e1|b'] eqn:Hb;
    simpl in Hr1; subst r1.
  { intros [= <- <-].
    split_and!; [by split_and!|by apply Hwf1|done|done|done|done|done]. }
  rewrite bind_run, fit_frg_detect_run.
  destruct (check_frg_detect (frg_detect g)) as [e2|v] eqn:Hf.
  { intros [= <- <-].
    split_and!; [by split_and!|by apply Hwf1|done|done|done| |done].
    intros _ _. by apply Hok1. }
  set (g2 := with_results g _ _).
  destruct (fit_mat_morph (h1, g2)) as [r3 [h3 g3]] eqn:E3.
  apply fit_mat_morph_spec in E3 as ([Hfh3 Hg3] & Hr3 & Hok3);
    [|by apply Hwf1].
  simpl in Hfh3, Hg3, Hok3, Hr3. subst g3. intros [= <- <-].
  rewrite (fit_heap_mat_morph_status h h1) in Hr3 by done.
  assert (Hfh : fit_heap h h3) by by etrans.
  split_and!.
  - by split_and!.
  - unfold wf. simpl. split_and!; [by apply Hfh | by eapply fit_heap_valid ..].
  - rewrite Hr3.
    by destruct (check_mat_morph (mat_morph_cfg_of h (mat_morph g))).
  - intros v' c'.
    destruct (check_mat_morph (mat_morph_cfg_of h (mat_morph g))) as [|m']
      eqn:Hm; [done|].
    intros [= <- <-]. simpl. f_equal.
    + eapply blur_cfg_transfer; try done.
      eapply blur_ok_fit_heap; [exact Hfh3| by eapply fit_heap_valid |by apply Hok1].
    + eapply mat_morph_cfg_transfer; try done. by apply Hok3.
  - done.
  - intros _ _.
    eapply blur_ok_fit_heap; [exact Hfh3| by eapply fit_heap_valid |by apply Hok1].
  - done.
Qed.

(** ** Pipelines that cannot process frames *)

Lemma refine_fails es : forall e raw,
  check_entries es = inl e -> exists e', refine cv_call es raw = inl e'.
Proof.
  induction es as [|c es IH]; intros e raw; [done|].
  cbn [check_entries refine]. destruct c as [c|]; [|by eexists].
  simpl. destruct (m_fun c) as [f|] eqn:Hf; simpl.
  - destruct (check_entries es) as [e1|] eqn:Hes; [|done]. intros _.
    destruct (call_pure cv_call _ _); [by eexists|]. by eapply IH.
  - intros _. by eexists.
Qed.

Lemma refine_stage_fails m e raw :
  check_mat_morph m = inl e -> exists e', refine_stage cv_call m raw = inl e'.
Proof.
  destruct m as [| |es]; simpl; [done|by eexists|].
  destruct (check_entries es) eqn:Hes; [|done]. intros _. by eapply refine_fails.
Qed.

Lemma process_unusable c mth x :
  (mth = None \/ exists e, check_mat_morph (c_mat_morph c) = inl e) ->
  exists e, snd (process bs_apply cv_call c mth x) = inl e /\
            (mth = None -> fst (process bs_apply cv_call c mth x) = None).
Proof.
  intros Hu. unfold process.
  destruct (denoise cv_call (c_blur c) x); [by eexists|].
  destruct mth as [[v m]|]; [|by eexists]. simpl.
  destruct Hu as [|[e He]]; [done|].
  destruct (snd (bs_apply v m a)) as [|raw]; [by eexists|].
  destruct (refine_stage_fails _ _ raw He) as [e' ->]. by eexists.
Qed.

Lemma unusable_predict X h (g : GOFPID Model) :
  wf (h, g) -> unusable (h, g) ->
  exists e s',
    Predict X (h, g) = (inl e, s') /\
    motion_mask_ (snd s') = motion_mask_ g /\
    wf s' /\ unusable s'.
Proof.
  intros Hwf Hu.
  pose proof (extends_predict X (h, g)) as Hext.
  pose proof (wf_extends _ _ Hwf Hext) as Hwf'.
  pose proof (config_of_extends _ _ Hwf Hext) as Hcfg.
  destruct (predict_process X h g Hwf) as (arrs & Hp).
  destruct (process_unusable (config_of (h, g)) (_frg_detect_mth g)
              (resolve h X) Hu) as (e & He & Hn).
  destruct (process _ _ _ _ _) as [mth' r]. simpl in He, Hn. subst r.
  rewrite Hp in *. eexists e, _. split_and!; [done|done|done|].
  destruct Hu as [Hu|Hu]; [left; by apply Hn|right].
  unfold config_of in Hcfg. simpl in *. injection Hcfg as _ Hcm.
  by rewrite Hcm.
Qed.

Lemma unusable_fit h (g : GOFPID Model) e s' :
  wf (h, g) -> unusable (h, g) -> Fit (h, g) = (inl e, s') ->
  wf s' /\ unusable s' /\ motion_mask_ (snd s') = motion_mask_ g.
Proof.
  intros Hwf Hu Hfit.
  destruct (fit_spec _ _ _ _ Hwf Hfit)
    as ((Hfh & (_ & _ & Em) & Hmask) & Hwf' & Hr & _ & Hmth & _).
  split_and!; [done| |done].
  assert (Hbroken : forall e',
    check_mat_morph (mat_morph_cfg_of h (mat_morph g)) = inl e' ->
    exists e'', check_mat_morph
                  (mat_morph_cfg_of (fst s') (mat_morph (snd s'))) = inl e'').
  { intros e' He'. destruct Hwf as (Hc & _ & Hvm). simpl in *.
    pose proof (fit_heap_mat_morph_status h (fst s') Hfh Hc _ Hvm) as Hs.
    rewrite Em. rewrite He' in Hs.
    destruct (check_mat_morph (mat_morph_cfg_of s'.1 (mat_morph g))) as [e''|];
      [by exists e''|]. by simpl in Hs. }
  destruct Hu as [Hu|[e' He']]; [|right; by eapply Hbroken].
  unfold check_config, config_of in Hr. simpl in *.
  destruct (check_blur _); [left; unfold Unconfigured; by rewrite Hmth|].
  destruct (check_frg_detect _); [left; unfold Unconfigured; by rewrite Hmth|].
  destruct (check_mat_morph _) eqn:Hm; [|done].
  right. by eapply Hbroken.
Qed.

Lemma never_fitted_unusable (s : state Model) :
  never_fitted createBackgroundSubtractor bs_apply cv_call s ->
  wf s /\ unusable s /\ motion_mask_ (snd s) = None.
Proof.
  induction 1 as [h b f m Hwf|s e s' _ (Hwf & Hu & Hm) Hfit
                 |s X r s' _ (Hwf & Hu & Hm) Hp].
  - split_and!; [done|by left|done].
  - destruct s as [h g].
    destruct (unusable_fit _ _ _ _ Hwf Hu Hfit) as (? & ? & Hm').
    split_and!; [done|done|]. by rewrite Hm'.
  - destruct s as [h g].
    destruct (unusable_predict X _ _ Hwf Hu) as (e & s'' & Hp' & Hm' & ? & ?).
    rewrite Hp in Hp'. injection Hp' as -> <-.
    split_and!; [done|done|]. by rewrite Hm'.
Qed.

(** C7.  On a pipeline whose [fit] has never succeeded, [predict]
    raises: it returns no verdict, and [motion_mask_] stays unset. *)
Theorem predict_before_fit_fails (s : state Model) X :
  never_fitted createBackgroundSubtractor bs_apply cv_call s ->
  exists e s',
    Predict X s = (inl e, s') /\
    motion_mask_ (snd s') = None /\
    same_config (snd s) (snd s').
Proof.
  intros Hnf. destruct (never_fitted_unusable s Hnf) as (Hwf & Hu & Hm).
  destruct s as [h g].
  destruct (unusable_predict X _ _ Hwf Hu) as (e & s' & Hp & Hm' & _ & _).
  exists e, s'. split_and!; [done|by rewrite Hm'|].
  pose proof (extends_predict X (h, g)) as [_ Hc]. by rewrite Hp in Hc.
Qed.

(** ** Configuration errors *)

Lemma msg_blur_neq_mat_morph : msg_blur_no_fun <> msg_mat_morph_no_fun.
Proof. by vm_compute. Qed.

Lemma msg_unknown_neq_mat_morph : msg_unknown_method <> msg_mat_morph_no_fun.
Proof. by vm_compute. Qed.

Lemma check_blur_ValueError b msg :
  check_blur b = inl (ValueError msg) -> msg = msg_blur_no_fun.
Proof.
  destruct b as [| |c]; simpl; try done.
  destruct (b_fun c); [done|]. by intros [= <-].
Qed.

Lemma check_frg_detect_ValueError v e :
  check_frg_detect v = inl e -> e = ValueError msg_unknown_method.
Proof. unfold check_frg_detect. repeat case_decide; try done. by intros [= <-]. Qed.

Lemma check_entries_ValueError es msg :
  check_entries es = inl (ValueError msg) -> msg = msg_mat_morph_no_fun.
Proof.
  induction es as [|c es IH]; [done|]. cbn [check_entries].
  destruct c as [c|]; simpl; [|done].
  destruct (m_fun c); simpl; [|by intros [= <-]].
  destruct (check_entries es); [|done]. intros [= ->]. by apply IH.
Qed.

Lemma check_mat_morph_ValueError m msg :
  check_mat_morph m = inl (ValueError msg) -> msg = msg_mat_morph_no_fun.
Proof.
  destruct m as [| |es]; simpl; try done.
  destruct (check_entries es) eqn:Hes; [|done]. intros [= ->].
  by eapply check_entries_ValueError.
Qed.

Lemma processing_trans (s1 s2 s3 : state Model) :
  processing bs_apply cv_call s1 s2 -> processing bs_apply cv_call s2 s3 ->
  processing bs_apply cv_call s1 s3.
Proof.
  intros H12. induction 1 as [|s X r s' _ IH Hp]; [done|].
  by eapply pr_predict.
Qed.

Lemma predict_seq_processing Xs : forall s : state Model,
  processing bs_apply cv_call s (snd (Predict_seq Xs s)).
Proof.
  induction Xs as [|X Xs IH]; intros s; [apply pr_start|].
  cbn [predict_seq]. destruct (Predict X s) as [r s1] eqn:Hp.
  specialize (IH s1). destruct (Predict_seq Xs s1) as [rs s2]. simpl in *.
  eapply processing_trans; [|exact IH].
  eapply pr_predict; [apply pr_start|exact Hp].
Qed.

Lemma unusable_processing (s s' : state Model) :
  wf s -> unusable s -> processing bs_apply cv_call s s' ->
  wf s' /\ unusable s' /\ motion_mask_ (snd s') = motion_mask_ (snd s).
Proof.
  intros Hwf Hu.
  induction 1 as [|s1 X r s2 _ (Hwf1 & Hu1 & Hm1) Hp]; [done|].
  destruct s1 as [h1 g1].
  destruct (unusable_predict X _ _ Hwf1 Hu1) as (e & s'' & Hp' & Hm' & ? & ?).
  rewrite Hp in Hp'. injection Hp' as -> <-.
  split_and!; [done|done|]. by rewrite Hm'.
Qed.

Lemma unconfigured_processing (s s' : state Model) :
  Unconfigured (snd s) -> processing bs_apply cv_call s s' ->
  Unconfigured (snd s').
Proof.
  intros Hu. induction 1 as [|s1 X r s2 _ IH Hp]; [done|].
  destruct s1 as [h1 g1].
  destruct (predict_unconfigured X h1 g1 IH) as (e & arrs & Hp').
  rewrite Hp in Hp'. by injection Hp' as _ ->.
Qed.

Lemma predict_seq_all_raise Xs : forall s : state Model,
  (forall s1, processing bs_apply cv_call s s1 ->
     forall X, exists e s2, Predict X s1 = (inl e, s2)) ->
  Forall (fun r => exists e, r = inl e) (fst (Predict_seq Xs s)).
Proof.
  induction Xs as [|X Xs IH]; intros s Hall; [by constructor|].
  cbn [predict_seq]. destruct (Predict X s) as [r s1] eqn:Hp.
  specialize (IH s1). destruct (Predict_seq Xs s1) as [rs s2]. simpl in *.
  constructor.
  - destruct (Hall s (pr_start _ _ _ s) X) as (e & s' & Hp').
    rewrite Hp in Hp'. injection Hp' as -> _. by exists e.
  - apply IH. intros s3 H3. apply Hall.
    eapply processing_trans; [|exact H3].
    eapply pr_predict; [apply pr_start|exact Hp].
Qed.

(** C2, as the code has it.  After [fit] has raised a configuration
    error on a pipeline without subtractor, every later [predict] call
    raises and leaves no mask, however many calls are made.  The
    pipeline is, and stays, [Unconfigured] when the error is the missing
    blur ["fun"] or the unknown [frg_detect]; when it is a [mat_morph]
    entry without ["fun"], the subtractor is bound already. *)
Theorem fit_config_error_leaves_unusable h (g : GOFPID Model) msg s' :
  wf (h, g) -> Unconfigured g ->
  Fit (h, g) = (inl (ValueError msg), s') ->
  (forall s, processing bs_apply cv_call s' s ->
     forall X, exists e s'',
       Predict X s = (inl e, s'') /\
       motion_mask_ (snd s'') = motion_mask_ g) /\
  (forall Xs,
     Forall (fun r => exists e, r = inl e) (fst (Predict_seq Xs s')) /\
     motion_mask_ (snd (snd (Predict_seq Xs s'))) = motion_mask_ g) /\
  (msg = msg_blur_no_fun \/ msg = msg_unknown_method ->
     forall s, processing bs_apply cv_call s' s -> Unconfigured (snd s)) /\
  (msg = msg_mat_morph_no_fun ->
     exists v, check_frg_detect (frg_detect g) = inr v /\
       _frg_detect_mth (snd s') = Some (v, createBackgroundSubtractor v)) /\
  (msg = msg_blur_no_fun \/ msg = msg_unknown_method \/
   msg = msg_mat_morph_no_fun).
Proof.
  intros Hwf Hu Hfit.
  destruct (unusable_fit _ _ _ _ Hwf (or_introl Hu) Hfit) as (Hwf' & Hu' & Hm').
  destruct (fit_spec _ _ _ _ Hwf Hfit) as (_ & _ & Hr & _ & Hmth & _).
  unfold check_config, config_of in Hr. simpl in Hr.
  assert (Hall : forall s, processing bs_apply cv_call s' s ->
            forall X, exists e s'',
              Predict X s = (inl e, s'') /\
              motion_mask_ (snd s'') = motion_mask_ g).
  { intros s Hs X.
    destruct (unusable_processing _ _ Hwf' Hu' Hs) as (Hwfs & Hus & Hms).
    destruct s as [hs gs].
    destruct (unusable_predict X _ _ Hwfs Hus) as (e & s'' & Hp & Hm'' & _).
    exists e, s''. split; [done|]. simpl in *. by rewrite Hm'', Hms. }
  split_and!.
  - exact Hall.
  - intros Xs. split.
    + apply predict_seq_all_raise. intros s1 H1 X.
      destruct (Hall s1 H1 X) as (e & s2 & Hp & _). by exists e, s2.
    + destruct (unusable_processing _ _ Hwf' Hu' (predict_seq_processing Xs s'))
        as (_ & _ & Hms). by rewrite Hms.
  - intros Hmsg s Hs. apply (unconfigured_processing s'); [|done].
    unfold Unconfigured. rewrite Hmth.
    destruct (check_blur _); [done|].
    destruct (check_frg_detect _); [done|].
    destruct (check_mat_morph _) eqn:Hcm; [|done]. injection Hr as <-.
    apply check_mat_morph_ValueError in Hcm.
    destruct Hmsg as [->| ->];
      [by destruct msg_blur_neq_mat_morph
      |by destruct msg_unknown_neq_mat_morph].
  - intros ->. rewrite Hmth.
    destruct (check_blur _) eqn:Hb.
    { injection Hr as <-. apply check_blur_ValueError in Hb.
      by destruct msg_blur_neq_mat_morph. }
    destruct (check_frg_detect _) as [e|v] eqn:Hf.
    { injection Hr as <-. apply check_frg_detect_ValueError in Hf.
      injection Hf as Hf. by destruct msg_unknown_neq_mat_morph. }
    by exists v.
  - destruct (check_blur _) eqn:Hb.
    { injection Hr as <-. left. by eapply check_blur_ValueError. }
    destruct (check_frg_detect _) as [e|v] eqn:Hf.
    { injection Hr as <-. apply check_frg_detect_ValueError in Hf.
      injection Hf as ->. by right; left. }
    destruct (check_mat_morph _) eqn:Hcm; [|done]. injection Hr as <-.
    right; right. by eapply check_mat_morph_ValueError.
Qed.

Lemma fit_no_stage h (g : GOFPID Model) v :
  check_frg_detect (frg_detect g) = inr v ->
  blur g = None -> mat_morph g = None ->
  Fit (h, g)
  = (inr tt, (h, with_results g (Some (v, createBackgroundSubtractor v))
                              (motion_mask_ g))).
Proof.
  intros Hf Hb Hm. unfold fit. rewrite bind_run.
  replace (fit_blur (h, g)) with (inr tt : exn + unit, (h, g)).
  2:{ unfold fit_blur. munfold. simpl. by rewrite Hb. }
  rewrite bind_run, fit_frg_detect_run, Hf.
  unfold fit_mat_morph. munfold. simpl. by rewrite Hm.
Qed.

Lemma msg_blur_neq_unknown : msg_blur_no_fun <> msg_unknown_method.
Proof. by vm_compute. Qed.

Lemma check_frg_detect_variant v : check_frg_detect (VStr (variant_name v)) = inr v.
Proof. by destruct v. Qed.

Lemma check_blur_has_fun (h : heap) r :
  truthy h r = false \/ has_keys h (ref_of r) ["fun"] ->
  exists b', check_blur (blur_cfg_of h r) = inr b'.
Proof.
  intros H. unfold blur_cfg_of. destruct r as [l|]; [|by eexists].
  destruct (truthy h (Some l)) eqn:Ht; [|by eexists].
  destruct H as [?|(l' & m & [= <-] & Hm & Hk)]; [done|].
  rewrite Hm. apply Forall_cons in Hk as [[f Hf] _].
  simpl. unfold lookup_arg at 1. rewrite Hf. simpl. by eexists.
Qed.

Lemma check_entries_has_fun (h : heap) items :
  Forall (fun d => has_keys h d ["fun"]) items ->
  exists es', check_entries (entry_cfg_of h <$> items) = inr es'.
Proof.
  induction 1 as [|d items (l & m & -> & Hm & Hk) _ [es' IH]]; [by eexists|].
  apply Forall_cons in Hk as [[f Hf] _].
  rewrite fmap_cons. cbn [check_entries]. unfold entry_cfg_of at 1.
  rewrite Hm. unfold lookup_arg at 1. rewrite Hf. simpl. rewrite IH.
  by eexists.
Qed.

Lemma check_mat_morph_has_fun (h : heap) r :
  (truthy h r = false \/
   exists l items, r = Some l /\ read_list h l = Some items /\
                   Forall (fun d => has_keys h d ["fun"]) items) ->
  exists m', check_mat_morph (mat_morph_cfg_of h r) = inr m'.
Proof.
  intros H. unfold mat_morph_cfg_of. destruct r as [l|]; [|by eexists].
  destruct (truthy h (Some l)) eqn:Ht; [|by eexists].
  destruct H as [?|(l' & items & [= <-] & Hl & Hk)]; [done|].
  rewrite Hl. cbn [check_mat_morph].
  destruct (check_entries_has_fun h items Hk) as [es' ->]. by eexists.
Qed.

(** C5.  [fit] binds the default-constructed MOG2 subtractor for
    ['MOG2'] and the default-constructed KNN subtractor for ['KNN'], and
    it succeeds with no other [frg_detect].  With one of the two it never
    raises the error of the unknown method, and it succeeds whenever the
    [blur] dictionary and the [mat_morph] entries it looks at have their
    ["fun"], the default arguments of [GOFPID()] included.  With any other
    value it raises a configuration error (the one of the unknown method,
    unless [blur] was rejected first) and binds nothing, so that [predict]
    on a pipeline without subtractor keeps raising. *)
Theorem fit_accepts_MOG2_and_KNN h (g : GOFPID Model) :
  wf (h, g) ->
  (forall s', Fit (h, g) = (inr tt, s') ->
     (frg_detect g = VStr "MOG2" /\
      _frg_detect_mth (snd s') = Some (MOG2, createBackgroundSubtractor MOG2)) \/
     (frg_detect g = VStr "KNN" /\
      _frg_detect_mth (snd s') = Some (KNN, createBackgroundSubtractor KNN))) /\
  (frg_detect g = VStr "MOG2" -> blur g = None -> mat_morph g = None ->
     Fit (h, g) = (inr tt,
       (h, with_results g (Some (MOG2, createBackgroundSubtractor MOG2))
                        (motion_mask_ g)))) /\
  (frg_detect g = VStr "KNN" -> blur g = None -> mat_morph g = None ->
     Fit (h, g) = (inr tt,
       (h, with_results g (Some (KNN, createBackgroundSubtractor KNN))
                        (motion_mask_ g)))) /\
  (forall v, frg_detect g = VStr (variant_name v) ->
     fst (Fit (h, g)) <> inl (ValueError msg_unknown_method) /\
     ((truthy h (blur g) = false \/ has_keys h (ref_of (blur g)) ["fun"]) ->
      (truthy h (mat_morph g) = false \/
       exists l items,
         mat_morph g = Some l /\ read_list h l = Some items /\
         Forall (fun d => has_keys h d ["fun"]) items) ->
      exists s',
        Fit (h, g) = (inr tt, s') /\
        _frg_detect_mth (snd s') = Some (v, createBackgroundSubtractor v))) /\
  (frg_detect g <> VStr "MOG2" -> frg_detect g <> VStr "KNN" ->
   blur_cfg_of h (blur g) <> IllTyped ->
     exists msg s',
       Fit (h, g) = (inl (ValueError msg), s') /\
       _frg_detect_mth (snd s') = _frg_detect_mth g /\
       (Unconfigured g ->
        forall X, exists e s'', Predict X s' = (inl e, s'')) /\
       (truthy h (blur g) = false \/ has_keys h (ref_of (blur g)) ["fun"] ->
        msg = msg_unknown_method) /\
       (Unconfigured g ->
        forall s, processing bs_apply cv_call s' s ->
          Unconfigured (snd s) /\
          forall X, exists e s'', Predict X s = (inl e, s''))).
Proof.
  intros Hwf. split_and!.
  - intros s' Hfit.
    destruct (fit_spec _ _ _ _ Hwf Hfit) as (_ & _ & Hr & _ & Hmth & _).
    unfold check_config, config_of in Hr. simpl in Hr. rewrite Hmth.
    destruct (check_blur _); [done|]. unfold check_frg_detect in *.
    repeat case_decide; try done; [by left | by right].
  - intros Hf Hb Hm. apply fit_no_stage; [|done|done].
    unfold check_frg_detect. rewrite Hf. by repeat case_decide.
  - intros Hf Hb Hm. apply fit_no_stage; [|done|done].
    unfold check_frg_detect. rewrite Hf. by repeat case_decide.
  - intros v Hv.
    destruct (Fit (h, g)) as [r s'] eqn:Hfit.
    destruct (fit_spec _ _ _ _ Hwf Hfit) as (_ & _ & Hr & _ & Hmth & _).
    unfold check_config, config_of in Hr. simpl in Hr.
    rewrite Hv, check_frg_detect_variant in Hr, Hmth. split.
    + simpl. subst r.
      destruct (check_blur _) as [e|b'] eqn:Hb; simpl.
      { intros [= ->]. apply check_blur_ValueError in Hb.
        by destruct msg_blur_neq_unknown. }
      destruct (check_mat_morph _) as [e|m'] eqn:Hm; simpl; [|done].
      intros [= ->]. apply check_mat_morph_ValueError in Hm.
      by destruct msg_unknown_neq_mat_morph.
    + intros Hbok Hmok.
      destruct (check_blur_has_fun _ _ Hbok) as [b' Hb].
      destruct (check_mat_morph_has_fun _ _ Hmok) as [m' Hm].
      rewrite Hb in Hr, Hmth. rewrite Hm in Hr. simpl in Hr. subst r.
      by exists s'.
  - intros H1 H2 Hb.
    destruct (Fit (h, g)) as [r s'] eqn:Hfit.
    destruct (fit_spec _ _ _ _ Hwf Hfit) as (_ & _ & Hr & _ & Hmth & _).
    unfold check_config, config_of in Hr. simpl in Hr.
    assert (Hf : check_frg_detect (frg_detect g)
                 = inl (ValueError msg_unknown_method)).
    { unfold check_frg_detect. by repeat case_decide. }
    rewrite Hf in Hr, Hmth.
    assert (Hmth' : _frg_detect_mth (snd s') = _frg_detect_mth g).
    { rewrite Hmth. by destruct (check_blur _). }
    assert (exists msg, r = inl (ValueError msg) /\
              (truthy h (blur g) = false \/
               has_keys h (ref_of (blur g)) ["fun"] ->
               msg = msg_unknown_method)) as (msg & -> & Hmsg).
    { destruct (check_blur (blur_cfg_of h (blur g))) as [e|b'] eqn:Hcb.
      - destruct (blur_cfg_of h (blur g)) as [| |c] eqn:Hbc; simpl in Hcb;
          [done|done|].
        destruct (b_fun c) eqn:Hbf; [done|]. injection Hcb as <-. simpl in Hr.
        eexists. split; [done|]. intros Hok.
        destruct (check_blur_has_fun _ _ Hok) as [b' Hb'].
        rewrite Hbc in Hb'. simpl in Hb'. by rewrite Hbf in Hb'.
      - simpl in Hr. by eexists. }
    destruct s' as [h' g'].
    exists msg, (h', g'). split_and!; [done|done| |done|].
    + intros Hu X.
      destruct (unusable_fit _ _ _ _ Hwf (or_introl Hu) Hfit) as (Hwf' & Hu' & _).
      destruct (unusable_predict X _ _ Hwf' Hu') as (e & s'' & Hp & _).
      by exists e, s''.
    + intros Hu s Hs.
      assert (Hu1 : Unconfigured (snd (h', g'))).
      { unfold Unconfigured. simpl in *. by rewrite Hmth'. }
      pose proof (unconfigured_processing _ _ Hu1 Hs) as Hus.
      split; [done|]. intros X. destruct s as [hs gs].
      destruct (predict_unconfigured X hs gs Hus) as (e & arrs & Hp).
      by eexists _, _.
Qed.

(** C3.  The mask [predict] leaves in [motion_mask_] is the raw mask of
    the background subtractor passed through the configured operators,
    one after the other in the order of the list, each on the result of
    the one before ([refine]).  With [mat_morph] set to [None] or to an
    empty list and [blur] set to [None], that mask is the raw mask of the
    subtractor on the input frame. *)
Theorem predict_refines_in_list_order X h (g : GOFPID Model) :
  (forall y s', wf (h, g) -> Predict X (h, g) = (inr y, s') ->
     exists x' v m raw mask ref,
       denoise cv_call (blur_cfg_of h (blur g)) (resolve h X) = inr x' /\
       _frg_detect_mth g = Some (v, m) /\
       snd (bs_apply v m x') = inr raw /\
       refine_stage cv_call (mat_morph_cfg_of h (mat_morph g)) raw = inr mask /\
       motion_mask_ (snd s') = Some ref /\
       resolve (fst s') ref = AArr mask) /\
  (forall v m raw,
     blur g = None -> truthy h (mat_morph g) = false ->
     _frg_detect_mth g = Some (v, m) ->
     snd (bs_apply v m (resolve h X)) = inr raw ->
     Predict X (h, g)
     = (inr (verdict raw),
        (h ++ [OArr raw],
         with_results g (Some (v, fst (bs_apply v m (resolve h X))))
                        (Some (VRef (length h)))))) /\
  (forall es mask1 mask2 e,
     refine cv_call es mask1 = inr mask2 ->
     refine cv_call (es ++ [Some e]) mask1
     = call_pure cv_call (arg_or_none (m_fun e))
                 [AArr mask2; arg_or_none (m_kernel e)]).
Proof.
  split_and!.
  - intros y s' Hwf Hp.
    destruct (predict_process X h g Hwf) as (arrs & Hpp).
    unfold process, config_of in Hpp. simpl in Hpp.
    destruct (denoise cv_call _ _) as [|x'] eqn:Hd;
      [by rewrite Hp in Hpp|].
    destruct (_frg_detect_mth g) as [[v m]|] eqn:Hm;
      [|by rewrite Hp in Hpp].
    destruct (snd (bs_apply v m x')) as [|raw] eqn:Hraw;
      [by rewrite Hp in Hpp|].
    destruct (refine_stage cv_call _ raw) as [|mask] eqn:Hmask;
      [by rewrite Hp in Hpp|].
    destruct Hpp as (ref & Hpp & Hres). rewrite Hp in Hpp.
    injection Hpp as -> ->. by exists x', v, m, raw, mask, ref.
  - intros v m raw Hb Ht Hm Hraw.
    unfold predict, predict_blur, predict_mat_morph. munfold. simpl.
    rewrite Hb. simpl. rewrite Hm.
    destruct (bs_apply v m (resolve h X)) as [m' r]. simpl in Hraw. subst r.
    simpl. rewrite truthy_app, Ht.
    + unfold np_any_motion_mask. cbn -[resolve]. rewrite resolve_new.
      unfold verdict. by destruct (np_any raw).
    + destruct (mat_morph g) as [l|]; [|done]. unfold truthy in Ht. simpl.
      destruct (h !! l) eqn:E; [by eapply lookup_lt_Some | done].
  - induction es as [|c es IH]; intros mask1 mask2 e.
    + intros [= ->]. simpl. by destruct (call_pure _ _ _).
    + cbn [refine app]. destruct c as [c|]; [|done].
      destruct (call_pure cv_call _ _) as [|mask']; [done|]. apply IH.
Qed.

(** ** The pipeline after [fit] *)

Lemma check_config_inr c v c' :
  check_config c = inr (v, c') ->
  exists b' m',
    check_blur (c_blur c) = inr b' /\
    check_frg_detect (c_frg_detect c) = inr v /\
    check_mat_morph (c_mat_morph c) = inr m' /\
    c' = Config b' (c_frg_detect c) m'.
Proof.
  unfold check_config.
  destruct (check_blur _) as [|b']; [done|].
  destruct (check_frg_detect _) as [|v0]; [done|].
  destruct (check_mat_morph _) as [|m']; [done|].
  intros [= <- <-]. by exists b', m'.
Qed.

Lemma check_entries_idem es : forall es',
  check_entries es = inr es' -> check_entries es' = inr es'.
Proof.
  induction es as [|c es IH]; intros es'; cbn [check_entries].
  - by intros [= <-].
  - destruct (check_entry c) as [|c'] eqn:Hc; [done|].
    destruct (check_entries es) as [|es''] eqn:Hes; [done|].
    intros [= <-]. cbn [check_entries]. rewrite (IH es'') by done.
    destruct c as [c|]; [|done]. simpl in Hc.
    destruct (m_fun c); [|done]. by injection Hc as <-.
Qed.

Lemma check_config_idem c v c' :
  check_config c = inr (v, c') -> check_config c' = inr (v, c').
Proof.
  intros Hc. apply check_config_inr in Hc as (b' & m' & Hb & Hf & Hm & ->).
  unfold check_config. simpl. rewrite Hf.
  assert (check_blur b' = inr b') as ->.
  { destruct (c_blur c) as [| |bc]; simpl in Hb; [by injection Hb as <-|done|].
    destruct (b_fun bc); [|done]. by injection Hb as <-. }
  assert (check_mat_morph m' = inr m') as ->; [|done].
  destruct (c_mat_morph c) as [| |es]; simpl in Hm; [by injection Hm as <-|done|].
  destruct (check_entries es) as [|es'] eqn:Hes; [done|]. injection Hm as <-.
  simpl. by rewrite (check_entries_idem es es').
Qed.

Lemma fit_predict_seq h (g : GOFPID Model) s' v c' Xs :
  wf (h, g) -> Fit (h, g) = (inr tt, s') ->
  check_config (config_of (h, g)) = inr (v, c') ->
  Forall (valid (fst s')) Xs ->
  fst (Predict_seq Xs s')
  = process_seq bs_apply cv_call c' (Some (v, createBackgroundSubtractor v))
                (resolve (fst s') <$> Xs).
Proof.
  intros Hwf Hfit Hc HXs.
  destruct (fit_spec _ _ _ _ Hwf Hfit) as (_ & Hwf' & _ & Hcfg & Hmth & _).
  specialize (Hcfg _ _ Hc).
  apply check_config_inr in Hc as (b' & m' & Hb & Hf & _ & _).
  unfold config_of in Hb, Hf. simpl in Hb, Hf. rewrite Hb, Hf in Hmth.
  destruct s' as [h' g']. simpl in *.
  by rewrite predict_seq_process, Hcfg, Hmth.
Qed.

(** What two pipelines whose configurations validate alike do after
    [fit] on frames with the same contents. *)
Lemma fit_predict_seq_agree (s1 s2 : state Model) r1 r2 s1' s2' :
  wf s1 -> wf s2 ->
  check_config (config_of s1) = check_config (config_of s2) ->
  Fit s1 = (r1, s1') -> Fit s2 = (r2, s2') ->
  r1 = r2 /\
  forall Xs1 Xs2,
    r1 = inr tt ->
    Forall (valid (fst s1')) Xs1 -> Forall (valid (fst s2')) Xs2 ->
    resolve (fst s1') <$> Xs1 = resolve (fst s2') <$> Xs2 ->
    fst (Predict_seq Xs1 s1') = fst (Predict_seq Xs2 s2').
Proof.
  destruct s1 as [h1 g1], s2 as [h2 g2]. intros Hwf1 Hwf2 Hc Hf1 Hf2.
  destruct (fit_spec _ _ _ _ Hwf1 Hf1) as (_ & _ & Hr1 & _).
  destruct (fit_spec _ _ _ _ Hwf2 Hf2) as (_ & _ & Hr2 & _).
  split; [by rewrite Hr1, Hr2, Hc|].
  intros Xs1 Xs2 Hr Hv1 Hv2 HXs.
  rewrite <- Hc, <- Hr1 in Hr2. subst r1 r2.
  destruct (check_config (config_of (h1, g1))) as [|[v c']] eqn:Hc1; [done|].
  symmetry in Hc.
  rewrite (fit_predict_seq h1 g1 s1' v c'), (fit_predict_seq h2 g2 s2' v c');
    try done.
  by rewrite HXs.
Qed.

(** ** Defaults are inserted in place *)

Lemma truthy_dict (h : heap) l m k v :
  read_dict h l = Some m -> m !! k = Some v -> truthy h (Some l) = true.
Proof.
  unfold read_dict, truthy. destruct (h !! l) as [[| |]|]; try done.
  intros [= ->] Hk. apply bool_decide_eq_true_2. by eapply dict_nonempty.
Qed.

Lemma truthy_list (h : heap) l d items :
  read_list h l = Some (d :: items) -> truthy h (Some l) = true.
Proof.
  unfold read_list, truthy. destruct (h !! l) as [[| |]|]; try done.
  intros [= ->]. by apply bool_decide_eq_true_2.
Qed.

Lemma fit_blur_in_place h (g : GOFPID Model) r s' l m :
  wf (h, g) -> Fit (h, g) = (r, s') ->
  blur g = Some l -> read_dict h l = Some m -> is_Some (m !! "fun") ->
  exists m',
    read_dict (fst s') l = Some m' /\ m ⊆ m' /\
    m' !! "ksize" = Some (default (VPair 3 3) (m !! "ksize")) /\
    m' !! "borderType" = Some (default (VInt BORDER_DEFAULT) (m !! "borderType")).
Proof.
  intros Hwf Hfit Hb Hm [f Hf].
  destruct (fit_spec _ _ _ _ Hwf Hfit)
    as ((Hfh & _) & _ & _ & _ & _ & Hok & _). simpl in Hfh.
  pose proof (truthy_dict _ _ _ _ _ Hm Hf) as Ht.
  destruct (fit_heap_read_dict h (fst s') Hfh _ _ Hm) as (m' & Hm' & Hs & _ & Hn).
  assert (Hkeys : has_keys (fst s') (VRef l) ["fun"; "ksize"; "borderType"]).
  { rewrite Hb in Hok. unfold blur_cfg_of in Hok. rewrite Ht, Hm in Hok.
    simpl in Hok. unfold lookup_arg in Hok at 1. rewrite Hf in Hok. simpl in Hok.
    destruct (Hok _ eq_refl) as [Hoff|Hon]; [|done].
    rewrite (fit_heap_truthy h) in Hoff; [congruence|done|].
    destruct Hwf as (_ & Hv & _). simpl in Hv. by rewrite Hb in Hv. }
  exists m'. split_and!; [done|done| |].
  - destruct (has_keys_inv _ _ _ _ "ksize" Hkeys Hm') as [v' Hv'];
      [set_solver|].
    destruct (m !! "ksize") as [v|] eqn:Hk; simpl.
    + by eapply lookup_weaken.
    + rewrite Hv'. destruct (Hn _ _ Hk Hv') as [[_ ->]|[[? _]|[? _]]]; done.
  - destruct (has_keys_inv _ _ _ _ "borderType" Hkeys Hm') as [v' Hv'];
      [set_solver|].
    destruct (m !! "borderType") as [v|] eqn:Hk; simpl.
    + by eapply lookup_weaken.
    + rewrite Hv'. destruct (Hn _ _ Hk Hv') as [[? _]|[[_ ->]|[? _]]]; done.
Qed.

Lemma fit_kernel_in_place h (g : GOFPID Model) s' lm items :
  wf (h, g) -> Fit (h, g) = (inr tt, s') ->
  mat_morph g = Some lm -> read_list h lm = Some items ->
  read_list (fst s') lm = Some items /\
  Forall (kernel_defaulted h (fst s')) items.
Proof.
  intros Hwf Hfit Hmm Hitems.
  destruct (fit_spec _ _ _ _ Hwf Hfit)
    as ((Hfh & _) & _ & _ & _ & _ & _ & Hok). simpl in Hfh.
  destruct Hwf as (Hc & _ & Hvm). simpl in Hc, Hvm. rewrite Hmm in Hvm, Hok.
  assert (Hitems' : read_list (fst s') lm = Some items)
    by by rewrite (fit_heap_read_list h).
  split; [done|].
  destruct items as [|d0 items0]; [done|].
  destruct (Hok eq_refl) as [Hoff|(l' & items' & [= <-] & Hl' & Hkeys)].
  { rewrite (fit_heap_truthy h) in Hoff by done.
    by rewrite (truthy_list _ _ _ _ Hitems) in Hoff. }
  rewrite Hitems' in Hl'. injection Hl' as <-.
  pose proof (closed_read_list _ _ _ Hc Hitems) as Hvalid.
  apply Forall_forall. intros d Hd.
  pose proof (proj1 (Forall_forall _ _) Hkeys d Hd) as (l & m' & -> & Hm' & Hks).
  pose proof (proj1 (Forall_forall _ _) Hvalid _ Hd) as Hlt. simpl in Hlt.
  destruct (read_dict h l) as [m|] eqn:Hm.
  2:{ by rewrite (fit_heap_read_dict_None h (fst s') Hfh l Hlt Hm) in Hm'. }
  destruct (fit_heap_read_dict h (fst s') Hfh _ _ Hm) as (m2 & E & Hs & _ & Hn).
  rewrite Hm' in E. injection E as <-.
  apply Forall_cons in Hks as [[f Hf] Hks].
  apply Forall_cons in Hks as [[k Hk] _].
  exists l, m, m'. split_and!; [done|done|done|done| |].
  - destruct (m !! "fun") eqn:E; [done|].
    by destruct (is_default_not_fun _ _ (Hn _ _ E Hf)).
  - destruct (m !! "kernel") as [k0|] eqn:E; [by eapply lookup_weaken|].
    destruct (Hn _ _ E Hk) as [[? _]|[[? _]|(_ & lk & -> & Hlk)]]; try done.
    by exists lk.
Qed.

Lemma check_entries_lacks_fun (h : heap) items :
  Forall (fun d => has_keys h d []) items ->
  Exists (fun d => ~ has_keys h d ["fun"]) items ->
  check_entries (entry_cfg_of h <$> items)
  = inl (ValueError msg_mat_morph_no_fun).
Proof.
  induction 1 as [|d items (l & m & -> & Hm & _) _ IH]; intros Hex.
  - by apply Exists_nil in Hex.
  - rewrite fmap_cons. cbn [check_entries]. unfold entry_cfg_of at 1.
    rewrite Hm. simpl. unfold lookup_arg at 1.
    destruct (m !! "fun") as [f|] eqn:Hf; [|done]. simpl.
    apply Exists_cons in Hex as [Hno|Hex].
    + destruct Hno. exists l, m. split_and!; [done|done|].
      repeat constructor. by exists f.
    + by rewrite IH.
Qed.

(** C6, as the code has it.  A [blur] dictionary that is not empty and
    has no ["fun"] makes [fit] raise a configuration error (an empty one
    disables the denoiser, as [None] does, and is not validated); one
    that has ["fun"] gets ["ksize"] (3, 3) and ["borderType"]
    [BORDER_DEFAULT] where they are unset.  A [mat_morph] list with an
    entry without ["fun"] makes [fit] raise a configuration error;
    when [fit] succeeds every entry has kept its ["kernel"] or got a new
    5 x 5 rectangle, and the pipeline then processes frames as one
    configured with that kernel written out. *)
Theorem fit_validates_and_defaults h (g : GOFPID Model) r s' :
  wf (h, g) -> Fit (h, g) = (r, s') ->
  (forall l m, blur g = Some l -> read_dict h l = Some m -> m <> ∅ ->
     m !! "fun" = None ->
     r = inl (ValueError msg_blur_no_fun) /\ s' = (h, g)) /\
  (forall l m, blur g = Some l -> read_dict h l = Some m ->
     is_Some (m !! "fun") ->
     exists m',
       read_dict (fst s') l = Some m' /\ m ⊆ m' /\
       m' !! "ksize" = Some (default (VPair 3 3) (m !! "ksize")) /\
       m' !! "borderType"
       = Some (default (VInt BORDER_DEFAULT) (m !! "borderType"))) /\
  (forall l items, mat_morph g = Some l -> read_list h l = Some items ->
     blur_cfg_of h (blur g) <> IllTyped ->
     Forall (fun d => has_keys h d []) items ->
     Exists (fun d => ~ has_keys h d ["fun"]) items ->
     exists msg, r = inl (ValueError msg)) /\
  (forall l items, r = inr tt -> mat_morph g = Some l ->
     read_list h l = Some items ->
     read_list (fst s') l = Some items /\
     Forall (kernel_defaulted h (fst s')) items) /\
  (forall f,
     check_entry (Some (MorphCfg f None))
     = check_entry (Some (MorphCfg f
                      (Some (AArr (getStructuringElement_RECT 5 5)))))) /\
  (forall h2 (g2 : GOFPID Model) r2 s2',
     wf (h2, g2) ->
     check_config (config_of (h2, g2)) = check_config (config_of (h, g)) ->
     Fit (h2, g2) = (r2, s2') ->
     r2 = r /\
     forall Xs Xs2,
       r = inr tt ->
       Forall (valid (fst s')) Xs -> Forall (valid (fst s2')) Xs2 ->
       resolve (fst s') <$> Xs = resolve (fst s2') <$> Xs2 ->
       fst (Predict_seq Xs s') = fst (Predict_seq Xs2 s2')).
Proof.
  intros Hwf Hfit. split_and!.
  - intros l m Hb Hm Hne Hf. revert Hfit.
    unfold fit. rewrite bind_run. unfold fit_blur. munfold. simpl.
    rewrite Hb. simpl.
    assert (truthy h (Some l) = true) as ->.
    { unfold read_dict in Hm. unfold truthy.
      destruct (h !! l) as [[| |]|]; try done. injection Hm as ->.
      by apply bool_decide_eq_true_2. }
    rewrite has_key_run, Hm, (has_key_None _ _ Hf). simpl.
    by intros [= <- <-].
  - intros l m. by eapply fit_blur_in_place.
  - intros l items Hmm Hitems Hb Hd Hex.
    destruct (fit_spec _ _ _ _ Hwf Hfit) as (_ & _ & -> & _).
    unfold check_config, config_of. simpl.
    destruct (blur_cfg_of h (blur g)) as [| |bc]; [|done|]; simpl.
    2: destruct (b_fun bc); [|by eexists]; simpl.
    all: destruct (check_frg_detect (frg_detect g)) as [e|v] eqn:Hf;
      [apply check_frg_detect_ValueError in Hf as ->; by eexists|].
    all: rewrite Hmm; unfold mat_morph_cfg_of; rewrite Hitems.
    all: destruct items as [|d items]; [by apply Exists_nil in Hex|].
    all: rewrite (truthy_list _ _ _ _ Hitems); cbn [check_mat_morph].
    all: rewrite (check_entries_lacks_fun h (d :: items)) by done.
    all: by eexists.
  - intros l items ->. by eapply fit_kernel_in_place.
  - intros f. by destruct f.
  - intros h2 g2 r2 s2' Hwf2 Hc Hfit2.
    destruct (fit_predict_seq_agree (h, g) (h2, g2) r r2 s' s2')
      as [-> Hseq]; done.
Qed.

(** C8.  Two pipelines with the same configuration: [fit] has the same
    outcome on both, and if it succeeds they give the same verdicts (and
    raise the same exceptions) on the same frames. *)
Theorem predict_deterministic (s1 s2 : state Model) r1 r2 s1' s2' :
  wf s1 -> wf s2 -> config_of s1 = config_of s2 ->
  Fit s1 = (r1, s1') -> Fit s2 = (r2, s2') ->
  r1 = r2 /\
  forall Xs1 Xs2,
    r1 = inr tt ->
    Forall (valid (fst s1')) Xs1 -> Forall (valid (fst s2')) Xs2 ->
    resolve (fst s1') <$> Xs1 = resolve (fst s2') <$> Xs2 ->
    fst (Predict_seq Xs1 s1') = fst (Predict_seq Xs2 s2').
Proof.
  intros Hwf1 Hwf2 Hc. apply fit_predict_seq_agree; [done|done|].
  by rewrite Hc.
Qed.


(** ** Further properties of [fit] and [predict] *)

Lemma extends_fit_heap (s s' : state Model) :
  Extends s s' -> fit_heap (fst s) (fst s').
Proof.
  intros [[arrs ->] _]. split_and!.
  - rewrite length_app. lia.
  - intros l o Hl. exists o.
    split; [by apply lookup_app_l_Some | apply defaulted_refl].
  - apply closed_app_arrays.
Qed.

Lemma mat_morph_ok_fit_heap (h h' : heap) r :
  fit_heap h h' -> valid h (ref_of r) -> mat_morph_ok h r -> mat_morph_ok h' r.
Proof.
  intros Hfh Hv [Hok|(l & items & -> & Hl & Hk)]; [left|right].
  - by rewrite (fit_heap_truthy h h').
  - exists l, items. split_and!; [done| |].
    + by rewrite (fit_heap_read_list h h').
    + eapply Forall_impl; [exact Hk|]. intros d. by apply fit_heap_has_keys.
Qed.

Lemma fit_blur_ok h (g : GOFPID Model) :
  blur_ok h (blur g) -> fit_blur (h, g) = (inr tt, (h, g)).
Proof.
  intros Hok. unfold fit_blur. munfold. simpl.
  destruct (blur g) as [l|]; [|done].
  destruct (truthy h (Some l)) eqn:Ht; [|done].
  destruct Hok as [?|(l' & m & [= <-] & Hm & Hks)]; [congruence|].
  apply Forall_cons in Hks as [[f Hf] Hks].
  apply Forall_cons in Hks as [[k Hk] Hks].
  apply Forall_cons in Hks as [[b Hb] _].
  rewrite has_key_run. simpl. rewrite Hm, (has_key_Some _ _ _ Hf). simpl.
  rewrite has_key_run. simpl. rewrite Hm, (has_key_Some _ _ _ Hk). simpl.
  rewrite has_key_run. simpl. by rewrite Hm, (has_key_Some _ _ _ Hb).
Qed.

Lemma fit_entries_ok items h (g : GOFPID Model) :
  Forall (fun d => has_keys h d ["fun"; "kernel"]) items ->
  for_each items fit_mat_morph_entry (h, g) = (inr tt, (h, g)).
Proof.
  induction 1 as [|d items (l & m & -> & Hm & Hks) _ IH]; [done|].
  apply Forall_cons in Hks as [[f Hf] Hks].
  apply Forall_cons in Hks as [[k Hk] _].
  cbn [for_each]. rewrite bind_run, fit_mat_morph_entry_run, Hm, Hf, Hk.
  exact IH.
Qed.

Lemma fit_mat_morph_ok h (g : GOFPID Model) :
  mat_morph_ok h (mat_morph g) -> fit_mat_morph (h, g) = (inr tt, (h, g)).
Proof.
  intros Hok. unfold fit_mat_morph. munfold. simpl.
  destruct (mat_morph g) as [l|]; [|done].
  destruct (truthy h (Some l)) eqn:Ht; [|done].
  destruct Hok as [?|(l' & items & [= <-] & Hl & Hks)]; [congruence|].
  unfold iter. munfold. simpl. rewrite Hl. by apply fit_entries_ok.
Qed.

Lemma refit_run (s0 s1 s2 : state Model) :
  wf s0 -> Fit s0 = (inr tt, s1) ->
  processing bs_apply cv_call s1 s2 ->
  exists v,
    _frg_detect_mth (snd s1) = Some (v, createBackgroundSubtractor v) /\
    Fit s2
    = (inr tt,
       (fst s2,
        with_results (snd s2) (Some (v, createBackgroundSubtractor v))
                     (motion_mask_ (snd s2)))).
Proof.
  destruct s0 as [h0 g0]. intros Hwf0 Hfit0 Hproc.
  destruct (fit_spec _ _ _ _ Hwf0 Hfit0)
    as ((_ & (Eb & Ef & Em) & _) & Hwf1 & Hr0 & _ & Hmth1 & Hbok & Hmok).
  destruct (check_config (config_of (h0, g0))) as [|[v c']] eqn:Hc0; [done|].
  pose proof (check_config_inr _ _ _ Hc0) as (b' & m' & Hb & Hf & _ & _).
  unfold config_of in Hb, Hf. simpl in Hb, Hf, Eb, Ef, Em.
  rewrite Hb, Hf in Hmth1.
  specialize (Hbok _ Hb). specialize (Hmok eq_refl).
  pose proof (processing_extends _ _ Hproc) as Hext.
  pose proof (extends_fit_heap _ _ Hext) as Hfh.
  destruct Hext as [_ (Eb2 & Ef2 & Em2)].
  destruct Hwf1 as (_ & Hvb & Hvm). rewrite Eb in Hvb. rewrite Em in Hvm.
  apply (blur_ok_fit_heap _ _ _ Hfh Hvb) in Hbok.
  apply (mat_morph_ok_fit_heap _ _ _ Hfh Hvm) in Hmok.
  exists v. split; [done|].
  destruct s2 as [h2 g2]. simpl in *.
  rewrite <- Eb, <- Eb2 in Hbok. rewrite <- Em, <- Em2 in Hmok.
  unfold fit. rewrite bind_run, (fit_blur_ok _ _ Hbok).
  rewrite bind_run, fit_frg_detect_run, Ef2, Ef, Hf.
  by rewrite fit_mat_morph_ok.
Qed.

(** ** The state after a sequence of frames *)

Lemma resolve_arr_valid (h : heap) v a : resolve h v = AArr a -> valid h v.
Proof.
  destruct v; try done. simpl. destruct (h !! l) eqn:Hl; [|done].
  intros _. by eapply lookup_lt_Some.
Qed.

Lemma predict_seq_state Xs : forall h (g : GOFPID Model),
  wf (h, g) -> Forall (valid h) Xs ->
  exists arrs g',
    snd (Predict_seq Xs (h, g)) = (h ++ (OArr <$> arrs), g') /\
    _frg_detect_mth g'
    = foldl (fun mth x => fst (process bs_apply cv_call (config_of (h, g)) mth x))
            (_frg_detect_mth g) (resolve h <$> Xs) /\
    match process_seq_last bs_apply cv_call (config_of (h, g))
                           (_frg_detect_mth g) (resolve h <$> Xs) with
    | Some mask =>
        exists v, motion_mask_ g' = Some v /\
                  resolve (h ++ (OArr <$> arrs)) v = AArr mask
    | None => motion_mask_ g' = motion_mask_ g
    end.
Proof.
  induction Xs as [|X Xs IH]; intros h g Hwf Hv.
  { exists [], g. simpl. by rewrite app_nil_r. }
  apply Forall_cons in Hv as [HX Hv].
  cbn [predict_seq process_seq_last fmap list_fmap foldl].
  pose proof (extends_predict X (h, g)) as Hext.
  pose proof (wf_extends _ _ Hwf Hext) as Hwf'.
  pose proof (config_of_extends _ _ Hwf Hext) as Hcfg.
  destruct (predict_process X h g Hwf) as (arrs1 & Hp).
  set (c := config_of (h, g)) in *.
  assert (exists r g1,
    Predict X (h, g) = (r, (h ++ (OArr <$> arrs1), g1)) /\
    _frg_detect_mth g1
    = fst (process bs_apply cv_call c (_frg_detect_mth g) (resolve h X)) /\
    match snd (process bs_apply cv_call c (_frg_detect_mth g) (resolve h X)) with
    | inr mask =>
        exists v, motion_mask_ g1 = Some v /\
                  resolve (h ++ (OArr <$> arrs1)) v = AArr mask
    | inl _ => motion_mask_ g1 = motion_mask_ g
    end) as (r & g1 & Hp1 & Hm1 & Hk1).
  { destruct (process bs_apply cv_call c (_frg_detect_mth g) (resolve h X))
      as [mth' [e|mask]]; simpl.
    - by eexists _, _.
    - destruct Hp as (v & Hp & Hres). eexists _, _.
      split; [exact Hp|]. split; [done|]. by exists v. }
  rewrite Hp1 in *. simpl in Hwf', Hcfg.
  assert (Hv' : Forall (valid (h ++ (OArr <$> arrs1))) Xs).
  { eapply Forall_impl; [exact Hv|]. intros ?. apply valid_app. }
  assert (HXs : resolve (h ++ (OArr <$> arrs1)) <$> Xs = resolve h <$> Xs).
  { apply list_fmap_ext. intros i x Hx. apply resolve_app.
    eapply Forall_lookup_1; eauto. }
  destruct (IH _ _ Hwf' Hv') as (arrs2 & g2 & Hs & Hm2 & Hk2).
  rewrite Hcfg, Hm1, HXs in Hm2, Hk2.
  destruct (Predict_seq Xs _) as [rs s2]. simpl in Hs |- *. subst s2.
  exists (arrs1 ++ arrs2), g2. rewrite fmap_app, app_assoc.
  split_and!; [done|done|].
  destruct (process_seq_last bs_apply cv_call c _ _) as [m|]; [done|].
  destruct (snd (process bs_apply cv_call c (_frg_detect_mth g) (resolve h X)))
    as [e|mask].
  - by rewrite Hk2.
  - destruct Hk1 as (v & Hv1 & Hr1). exists v. split; [by rewrite Hk2|].
    rewrite resolve_app; [done|]. by eapply resolve_arr_valid.
Qed.

Lemma process_seq_last_None c xs : forall mth,
  process_seq_last bs_apply cv_call c mth xs = None ->
  Forall (fun r => exists e, r = inl e) (process_seq bs_apply cv_call c mth xs).
Proof.
  induction xs as [|x xs IH]; intros mth; [by constructor|].
  cbn [process_seq_last process_seq].
  destruct (process bs_apply cv_call c mth x) as [mth' [e|mask]]; simpl.
  - destruct (process_seq_last _ _ _ mth' xs) eqn:Hl; [done|]. intros _.
    constructor; [by eexists|by apply IH].
  - by destruct (process_seq_last _ _ _ mth' xs).
Qed.

Lemma process_seq_last_Some c xs : forall mth mask,
  process_seq_last bs_apply cv_call c mth xs = Some mask ->
  Exists (fun r => exists y, r = inr y) (process_seq bs_apply cv_call c mth xs).
Proof.
  induction xs as [|x xs IH]; intros mth mask; [done|].
  cbn [process_seq_last process_seq].
  destruct (process bs_apply cv_call c mth x) as [mth' [e|mask']]; simpl.
  - destruct (process_seq_last _ _ _ mth' xs) eqn:Hl; [|done]. intros _.
    apply Exists_cons_tl. by eapply IH.
  - intros _. apply Exists_cons_hd. by eexists.
Qed.

Lemma raised_not_returned (rs : list (exn + Z)) :
  Forall (fun r => exists e, r = inl e) rs ->
  Exists (fun r => exists y, r = inr y) rs -> False.
Proof.
  intros Hall Hex. apply Exists_exists in Hex as (r & Hin & y & ->).
  rewrite Forall_forall in Hall. by destruct (Hall _ Hin) as [e ?].
Qed.

(** C10, as the code has it.  [fit] on a configured pipeline that has
    processed frames succeeds and binds a newly constructed subtractor of
    the same variant; the store and the configuration stay as they are.
    From there on the verdicts and exceptions, the background model and
    the mask every successful [predict] leaves are those of the pipeline
    right after its first [fit].  [motion_mask_] itself is not reset: it
    still refers to the last mask of before the second [fit], until a
    [predict] assigns it again. *)
Theorem refit_resets (s0 s1 s2 : state Model) :
  wf s0 -> Fit s0 = (inr tt, s1) ->
  processing bs_apply cv_call s1 s2 ->
  exists v s3,
    Fit s2 = (inr tt, s3) /\
    _frg_detect_mth (snd s1) = Some (v, createBackgroundSubtractor v) /\
    _frg_detect_mth (snd s3) = Some (v, createBackgroundSubtractor v) /\
    fst s3 = fst s2 /\
    same_config (snd s2) (snd s3) /\
    motion_mask_ (snd s3) = motion_mask_ (snd s2) /\
    forall Xs1 Xs3,
      Forall (valid (fst s1)) Xs1 -> Forall (valid (fst s3)) Xs3 ->
      resolve (fst s1) <$> Xs1 = resolve (fst s3) <$> Xs3 ->
      fst (Predict_seq Xs3 s3) = fst (Predict_seq Xs1 s1) /\
      _frg_detect_mth (snd (snd (Predict_seq Xs3 s3)))
      = _frg_detect_mth (snd (snd (Predict_seq Xs1 s1))) /\
      (Exists (fun r => exists y, r = inr y) (fst (Predict_seq Xs1 s1)) ->
       exists v1 v3 mask,
         motion_mask_ (snd (snd (Predict_seq Xs1 s1))) = Some v1 /\
         resolve (fst (snd (Predict_seq Xs1 s1))) v1 = AArr mask /\
         motion_mask_ (snd (snd (Predict_seq Xs3 s3))) = Some v3 /\
         resolve (fst (snd (Predict_seq Xs3 s3))) v3 = AArr mask) /\
      (Forall (fun r => exists e, r = inl e) (fst (Predict_seq Xs1 s1)) ->
       motion_mask_ (snd (snd (Predict_seq Xs1 s1))) = motion_mask_ (snd s1) /\
       motion_mask_ (snd (snd (Predict_seq Xs3 s3))) = motion_mask_ (snd s2)).
Proof.
  destruct s0 as [h0 g0]. intros Hwf0 Hfit0 Hproc.
  destruct (refit_run _ _ _ Hwf0 Hfit0 Hproc) as (v & Hmth1 & Hfit2).
  destruct (fit_spec _ _ _ _ Hwf0 Hfit0) as (_ & Hwf1 & Hr0 & Hcfg1 & Hmth1' & _).
  destruct (check_config (config_of (h0, g0))) as [|[v' c']] eqn:Hc0; [done|].
  specialize (Hcfg1 _ _ eq_refl).
  pose proof (check_config_inr _ _ _ Hc0) as (b' & m' & Hb & Hf & _ & _).
  unfold config_of in Hb, Hf. simpl in Hb, Hf. rewrite Hb, Hf in Hmth1'.
  assert (v' = v) as -> by congruence. clear Hmth1'.
  pose proof (processing_extends _ _ Hproc) as Hext.
  pose proof (wf_extends _ _ Hwf1 Hext) as Hwf2.
  pose proof (config_of_extends _ _ Hwf1 Hext) as Hcfg2.
  rewrite Hcfg1 in Hcfg2.
  pose proof (check_config_idem _ _ _ Hc0) as Hidem.
  destruct s2 as [h2 g2]. simpl in Hfit2.
  destruct (fit_spec _ _ _ _ Hwf2 Hfit2) as (_ & Hwf3 & _ & Hcfg3 & _).
  assert (Hidem2 : check_config (config_of (h2, g2)) = inr (v, c'))
    by by rewrite Hcfg2.
  specialize (Hcfg3 _ _ Hidem2).
  set (g3 := with_results g2 (Some (v, createBackgroundSubtractor v))
                          (motion_mask_ g2)) in *.
  exists v, (h2, g3). split_and!; [done|done|done|done|done|done|].
  intros Xs1 Xs3 Hv1 Hv3 HXs. simpl in Hv3, HXs.
  destruct s1 as [h1 g1]. simpl in Hmth1, Hv1, HXs.
  pose proof (predict_seq_process Xs1 h1 g1 Hwf1 Hv1) as Hr1.
  pose proof (predict_seq_process Xs3 h2 g3 Hwf3 Hv3) as Hr3.
  destruct (predict_seq_state Xs1 h1 g1 Hwf1 Hv1) as (a1 & t1 & Hs1 & Hm1 & Hk1).
  destruct (predict_seq_state Xs3 h2 g3 Hwf3 Hv3) as (a3 & t3 & Hs3 & Hm3 & Hk3).
  rewrite Hcfg1, Hmth1 in Hr1, Hm1, Hk1.
  rewrite Hcfg3, <- HXs in Hr3, Hm3, Hk3. simpl in Hr3, Hm3, Hk3.
  rewrite Hs1, Hs3. simpl.
  split_and!.
  - by rewrite Hr1, Hr3.
  - by rewrite Hm1, Hm3.
  - rewrite Hr1. intros Hex.
    destruct (process_seq_last bs_apply cv_call c' _ _) as [mask|] eqn:Hl.
    + destruct Hk1 as (v1 & ? & ?), Hk3 as (v3 & ? & ?). by exists v1, v3, mask.
    + destruct (raised_not_returned _ (process_seq_last_None _ _ _ Hl) Hex).
  - rewrite Hr1. intros Hall.
    destruct (process_seq_last bs_apply cv_call c' _ _) as [mask|] eqn:Hl.
    + destruct (raised_not_returned _ Hall (process_seq_last_Some _ _ _ _ Hl)).
    + done.
Qed.

(** X1.  Whatever its outcome, [fit] leaves every list and array of the
    store as it is and every dictionary with all the entries it had,
    unchanged: what a dictionary gains is a default ([is_default]), and
    an empty dictionary stays empty.  The configuration attributes and
    the last mask are not reassigned. *)
Theorem fit_only_adds_defaults h (g : GOFPID Model) r s' :
  wf (h, g) -> Fit (h, g) = (r, s') ->
  same_config g (snd s') /\
  motion_mask_ (snd s') = motion_mask_ g /\
  forall l o, h !! l = Some o ->
    match o with
    | ODict m =>
        exists m',
          fst s' !! l = Some (ODict m') /\
          (forall k v, m !! k = Some v -> m' !! k = Some v) /\
          (forall k v, m !! k = None -> m' !! k = Some v ->
             is_default (fst s') k v) /\
          (m = ∅ -> m' = ∅)
    | _ => fst s' !! l = Some o
    end.
Proof.
  intros Hwf Hfit.
  destruct (fit_spec _ _ _ _ Hwf Hfit) as (((_ & Ho & _) & Hc & Hm) & _).
  split_and!; [done|done|]. simpl in Ho.
  intros l o Hl. destruct (Ho _ _ Hl) as (o' & Hl' & Hd).
  destruct o as [m| |]; simpl in Hd; [|by subst o'..].
  destruct o' as [m'| |]; try done. destruct Hd as (Hs & He & Hn).
  exists m'. split_and!; [done| |done|done].
  intros k v Hk. by eapply lookup_weaken.
Qed.

(** X2.  [fit] on a configured pipeline, before or after it has
    processed frames, changes nothing in the store (no default is
    inserted twice, no kernel is allocated again) and keeps the last
    mask: all it does is bind a new subtractor of the same variant. *)
Theorem fit_again_keeps_store (s0 s1 s2 : state Model) :
  wf s0 -> Fit s0 = (inr tt, s1) ->
  processing bs_apply cv_call s1 s2 ->
  exists v,
    _frg_detect_mth (snd s1) = Some (v, createBackgroundSubtractor v) /\
    Fit s2
    = (inr tt,
       (fst s2,
        with_results (snd s2) (Some (v, createBackgroundSubtractor v))
                     (motion_mask_ (snd s2)))).
Proof. exact (refit_run s0 s1 s2). Qed.

(** X3.  When [predict] raises, [motion_mask_] is what it was before the
    call.  If the denoiser raised, nothing has changed at all; if the
    exception came later, the background model has been updated with the
    frame all the same. *)
Theorem predict_raise_effects X h (g : GOFPID Model) e s' :
  wf (h, g) -> Predict X (h, g) = (inl e, s') ->
  motion_mask_ (snd s') = motion_mask_ g /\
  (forall e',
     denoise cv_call (blur_cfg_of h (blur g)) (resolve h X) = inl e' ->
     e = e' /\ s' = (h, g)) /\
  (forall x' v m,
     denoise cv_call (blur_cfg_of h (blur g)) (resolve h X) = inr x' ->
     _frg_detect_mth g = Some (v, m) ->
     _frg_detect_mth (snd s') = Some (v, fst (bs_apply v m x'))).
Proof.
  intros Hwf Hp.
  destruct (predict_process X h g Hwf) as (arrs & Hpp).
  unfold process, config_of in Hpp. simpl in Hpp.
  pose proof (predict_blur_spec X h g) as Hblur.
  destruct (denoise cv_call (blur_cfg_of h (blur g)) (resolve h X))
    as [e1|x'] eqn:Hd.
  - rewrite Hp in Hpp. injection Hpp as -> ->.
    split_and!; [done| |done].
    intros e' [= <-]. split; [done|].
    revert Hp. unfold predict. rewrite bind_run, Hblur.
    intros Heq. injection Heq as Hh Hg. by rewrite <- Hh, <- Hg.
  - destruct (_frg_detect_mth g) as [[v m]|] eqn:Hm.
    + destruct (snd (bs_apply v m x')) as [e2|raw].
      * rewrite Hp in Hpp. injection Hpp as -> ->.
        split_and!; [done|done|]. by intros ? ? ? [= <-] [= <- <-].
      * destruct (refine_stage cv_call _ raw) as [e3|mask].
        -- rewrite Hp in Hpp. injection Hpp as -> ->.
           split_and!; [done|done|]. by intros ? ? ? [= <-] [= <- <-].
        -- destruct Hpp as (ref & Hpp & _). by rewrite Hp in Hpp.
    + rewrite Hp in Hpp. injection Hpp as -> ->. by split_and!.
Qed.

(** X4.  Over a sequence of [predict] calls the background model sees
    every frame that passes the denoiser exactly once, in the order of
    the calls, whether or not a later stage raises; a frame on which the
    denoiser raises is skipped. *)
Theorem model_after_frames Xs : forall h (g : GOFPID Model) v m0,
  wf (h, g) -> Forall (valid h) Xs ->
  _frg_detect_mth g = Some (v, m0) ->
  _frg_detect_mth (snd (snd (Predict_seq Xs (h, g))))
  = Some (v,
          foldl (fun m x =>
                   match denoise cv_call (blur_cfg_of h (blur g)) x with
                   | inr x' => fst (bs_apply v m x')
                   | inl _ => m
                   end)
                m0 (resolve h <$> Xs)).
Proof.
  induction Xs as [|X Xs IH]; intros h g v m0 Hwf Hv Hm; [done|].
  apply Forall_cons in Hv as [HX Hv].
  cbn [predict_seq fmap list_fmap foldl].
  pose proof (extends_predict X (h, g)) as Hext.
  pose proof (wf_extends _ _ Hwf Hext) as Hwf'.
  pose proof (config_of_extends _ _ Hwf Hext) as Hcfg.
  destruct (predict_process X h g Hwf) as (arrs & Hp).
  assert (exists r g',
    Predict X (h, g) = (r, (h ++ (OArr <$> arrs), g')) /\
    _frg_detect_mth g'
    = Some (v, match denoise cv_call (blur_cfg_of h (blur g)) (resolve h X) with
               | inr x' => fst (bs_apply v m0 x')
               | inl _ => m0
               end)) as (r & g' & Hp' & Hm').
  { unfold process, config_of in Hp. simpl in Hp. rewrite Hm in Hp.
    destruct (denoise cv_call _ _) as [e|x']; [by eexists _, _|].
    destruct (snd (bs_apply v m0 x')) as [e|raw]; [by eexists _, _|].
    destruct (refine_stage cv_call _ raw) as [e|mask]; [by eexists _, _|].
    destruct Hp as (ref & Hp & _). by eexists _, _. }
  rewrite Hp' in *. simpl in *.
  specialize (IH _ _ _ _ Hwf' (Forall_impl _ _ _ Hv (fun x => valid_app h _ x)) Hm').
  destruct (Predict_seq Xs _) as [rs s2]. simpl in *. rewrite IH.
  unfold config_of in Hcfg. simpl in Hcfg. injection Hcfg as -> _ _.
  do 3 f_equal. apply list_fmap_ext. intros i x Hx. apply resolve_app.
  eapply Forall_lookup_1; eauto.
Qed.

Lemma call_not_callable f args h (g : GOFPID Model) :
  (forall name, f <> VFun name) ->
  call cv_call f args (h, g) = (inl TypeError, (h, g)).
Proof.
  intros Hf. unfold call. munfold. simpl. destruct f; try done.
  by destruct (Hf name).
Qed.

Lemma predict_blur_not_callable X h (g : GOFPID Model) l m :
  blur g = Some l -> read_dict h l = Some m -> m <> ∅ ->
  (forall name, m !! "fun" <> Some (VFun name)) ->
  Predict X (h, g) = (inl TypeError, (h, g)).
Proof.
  intros Hb Hm Hne Hf. unfold predict. rewrite bind_run.
  unfold predict_blur. munfold. simpl. rewrite Hb.
  assert (truthy h (Some l) = true) as ->.
  { unfold read_dict in Hm. unfold truthy.
    destruct (h !! l) as [[| |]|]; try done. injection Hm as ->.
    by apply bool_decide_eq_true_2. }
  do 3 (rewrite dict_get_run; simpl; rewrite Hm; simpl).
  rewrite call_not_callable; [done|].
  intros name Hn. apply (Hf name). by destruct (m !! "fun"); simpl in *; subst.
Qed.

(** X5.  [fit] checks that ["fun"] is there, not that it can be called:
    on a pipeline that [fit] has accepted with a [blur] whose ["fun"] is
    not a callable, every [predict] raises [TypeError] and changes
    nothing, the background model included. *)
Theorem fit_does_not_check_callable (s0 s1 s : state Model) l m v X :
  wf s0 -> Fit s0 = (inr tt, s1) ->
  blur (snd s0) = Some l -> read_dict (fst s0) l = Some m ->
  m !! "fun" = Some v -> (forall name, v <> VFun name) ->
  processing bs_apply cv_call s1 s ->
  Predict X s = (inl TypeError, s).
Proof.
  destruct s0 as [h0 g0]. simpl. intros Hwf Hfit Hb Hm Hf Hv Hproc.
  destruct (fit_spec _ _ _ _ Hwf Hfit) as ((Hfh1 & (Eb & _) & _) & _).
  pose proof (processing_extends _ _ Hproc) as Hext.
  pose proof (extends_fit_heap _ _ Hext) as Hfh2.
  destruct Hext as [_ (Eb2 & _)].
  assert (Hfh : fit_heap h0 (fst s)) by (etrans; [exact Hfh1|exact Hfh2]).
  destruct (fit_heap_read_dict _ _ Hfh _ _ Hm) as (m' & Hm' & Hs & _).
  pose proof (lookup_weaken _ _ _ _ Hf Hs) as Hf'.
  destruct s as [h g]. simpl in *.
  apply (predict_blur_not_callable X h g l m'); [congruence|done| |].
  - by eapply dict_nonempty.
  - intros name. rewrite Hf'. intros [= ->]. by destruct (Hv name).
Qed.

Lemma fit_blur_local h (g : GOFPID Model) r s' :
  fit_blur (h, g) = (r, s') ->
  snd s' = g /\ length (fst s') = length h /\
  forall l, blur g <> Some l -> fst s' !! l = h !! l.
Proof.
  unfold fit_blur. munfold. simpl.
  destruct (blur g) as [l|] eqn:Hl; simpl; [|by intros [= <- <-]].
  destruct (truthy h (Some l)); [|by intros [= <- <-]].
  rewrite has_key_run. simpl.
  destruct (read_dict h l) as [m|] eqn:Hm; simpl; [|by intros [= <- <-]].
  destruct (m !! "fun") as [f|]; simpl; [|by intros [= <- <-]].
  rewrite has_key_run. simpl. rewrite Hm.
  assert (Hins : forall (h1 : heap) o l',
            Some l <> Some l' -> <[l := o]> h1 !! l' = h1 !! l').
  { intros h1 o l' Hne. apply list_lookup_insert_ne. congruence. }
  destruct (m !! "ksize") as [k|]; simpl.
  - rewrite has_key_run. simpl. rewrite Hm.
    destruct (m !! "borderType") as [b|]; simpl; [by intros [= <- <-]|].
    unfold setitem. rewrite Hm. intros [= <- <-]. simpl.
    split_and!; [done|by rewrite length_insert|]. intros l' Hne. by apply Hins.
  - unfold setitem at 1. rewrite Hm. simpl.
    rewrite has_key_run. simpl. rewrite (read_dict_insert _ _ _ _ Hm).
    destruct (_ !! "borderType") as [b|]; simpl.
    + intros [= <- <-]. simpl.
      split_and!; [done|by rewrite length_insert|]. intros l' Hne. by apply Hins.
    + unfold setitem. rewrite (read_dict_insert _ _ _ _ Hm).
      intros [= <- <-]. simpl.
      split_and!; [done|by rewrite !length_insert|].
      intros l' Hne. by rewrite !Hins.
Qed.

(** X6.  With an [frg_detect] that is neither ['MOG2'] nor ['KNN'],
    [fit] raises without binding a subtractor and without looking at
    [mat_morph]: no kernel is allocated and the only object of the store
    that can have changed is the [blur] dictionary. *)
Theorem fit_unknown_frg_detect_stops_early h (g : GOFPID Model) r s' :
  frg_detect g <> VStr "MOG2" -> frg_detect g <> VStr "KNN" ->
  Fit (h, g) = (r, s') ->
  (exists e, r = inl e) /\
  snd s' = g /\
  length (fst s') = length h /\
  forall l, blur g <> Some l -> fst s' !! l = h !! l.
Proof.
  intros H1 H2. unfold fit. rewrite bind_run.
  destruct (fit_blur (h, g)) as [r1 [h1 g1]] eqn:E1.
  apply fit_blur_local in E1 as (Hg & Hlen & Hl). simpl in Hg, Hlen, Hl.
  subst g1. destruct r1 as [e|[]].
  - intros [= <- <-]. split_and!; [by eexists|done|done|done].
  - rewrite bind_run, fit_frg_detect_run. unfold check_frg_detect.
    repeat case_decide; try done.
    intros [= <- <-]. split_and!; [by eexists|done|done|done].
Qed.

Lemma refine_raises_opencv es : forall raw e,
  Forall (fun e0 => exists mc, e0 = Some mc /\ fun_callable (m_fun mc)) es ->
  refine cv_call es raw = inl e ->
  exists name args, cv_call name args = inl e.
Proof.
  induction es as [|c es IH]; intros raw e Hall; [done|].
  apply Forall_cons in Hall as [(mc & -> & name & Hf) Hall].
  cbn [refine]. rewrite Hf. simpl.
  destruct (cv_call name _) as [e1|mask'] eqn:Hcall.
  - intros [= <-]. by eexists _, _.
  - by apply IH.
Qed.

Lemma process_raises_opencv c v m x mth' e :
  config_callable c ->
  process bs_apply cv_call c (Some (v, m)) x = (mth', inl e) ->
  opencv_raises bs_apply cv_call e.
Proof.
  intros [Hb Hm]. unfold process.
  destruct (c_blur c) as [| |b]; [|done|]; simpl.
  2: destruct Hb as [name ->]; simpl;
     destruct (cv_call name _) as [e1|a] eqn:Hcall;
       [intros [= _ <-]; left; by eexists _, _|].
  all: destruct (snd (bs_apply v m _)) as [e2|raw] eqn:Hbs;
    [intros [= _ <-]; right; by eexists _, _, _|].
  all: intros [= _ Hr]; left.
  all: destruct (c_mat_morph c) as [| |es]; [done|done|].
  all: by eapply refine_raises_opencv.
Qed.

Lemma truthy_dict_nonempty (h : heap) l m :
  truthy h (Some l) = true -> read_dict h l = Some m -> m <> ∅.
Proof.
  unfold truthy, read_dict. destruct (h !! l) as [[| |]|]; try done.
  intros Ht [= ->]. by apply bool_decide_eq_true_1 in Ht.
Qed.

Lemma check_entries_callable (h : heap) items : forall es',
  Forall (callable_fun h) items ->
  check_entries (entry_cfg_of h <$> items) = inr es' ->
  Forall (fun e => exists mc, e = Some mc /\ fun_callable (m_fun mc)) es'.
Proof.
  induction items as [|d items IH]; intros es' Hall.
  - by intros [= <-].
  - apply Forall_cons in Hall as [(l & m & name & -> & Hm & Hf) Hall].
    rewrite fmap_cons. cbn [check_entries]. unfold entry_cfg_of at 1.
    rewrite Hm. unfold lookup_arg at 1. rewrite Hf. simpl.
    destruct (check_entries (entry_cfg_of h <$> items)) as [|es''] eqn:Hes;
      [done|].
    intros [= <-]. constructor; [|by apply IH].
    eexists. split; [done|]. by exists name.
Qed.

Lemma config_of_callable h (g : GOFPID Model) v c' :
  (forall l m, blur g = Some l -> read_dict h l = Some m -> m <> ∅ ->
     exists name, m !! "fun" = Some (VFun name)) ->
  (forall l items, mat_morph g = Some l -> read_list h l = Some items ->
     Forall (callable_fun h) items) ->
  check_config (config_of (h, g)) = inr (v, c') ->
  config_callable c'.
Proof.
  intros Hb Hm Hc.
  apply check_config_inr in Hc as (b' & m' & Hcb & _ & Hcm & ->).
  unfold config_of in Hcb, Hcm. simpl in Hcb, Hcm. split; simpl.
  - unfold blur_cfg_of in Hcb. destruct (blur g) as [l|]; [|by injection Hcb as <-].
    destruct (truthy h (Some l)) eqn:Ht; [|by injection Hcb as <-].
    destruct (read_dict h l) as [m|] eqn:Hd; [|done].
    destruct (Hb l m eq_refl Hd (truthy_dict_nonempty _ _ _ Ht Hd)) as [name Hf].
    simpl in Hcb. unfold lookup_arg in Hcb at 1. rewrite Hf in Hcb.
    simpl in Hcb. injection Hcb as <-. by exists name.
  - unfold mat_morph_cfg_of in Hcm.
    destruct (mat_morph g) as [l|]; [|by injection Hcm as <-].
    destruct (truthy h (Some l)) eqn:Ht; [|by injection Hcm as <-].
    destruct (read_list h l) as [items|] eqn:Hl; [|done].
    cbn [check_mat_morph] in Hcm.
    destruct (check_entries (entry_cfg_of h <$> items)) as [|es'] eqn:Hes;
      [done|].
    injection Hcm as <-. eapply check_entries_callable; [|exact Hes].
    by eapply Hm.
Qed.

Lemma processing_mth (s1 s : state Model) v m1 :
  wf s1 -> _frg_detect_mth (snd s1) = Some (v, m1) ->
  processing bs_apply cv_call s1 s ->
  exists m, _frg_detect_mth (snd s) = Some (v, m).
Proof.
  intros Hwf1 Hm1. induction 1 as [|s X r s' Hproc IH Hp]; [by exists m1|].
  destruct IH as [m Hm].
  pose proof (wf_extends _ _ Hwf1 (processing_extends _ _ Hproc)) as Hwf.
  destruct s as [h g]. simpl in Hm.
  destruct (predict_process X h g Hwf) as (arrs & Hpp).
  unfold process in Hpp. rewrite Hm in Hpp.
  destruct (denoise cv_call _ _) as [e|x'].
  { rewrite Hp in Hpp. injection Hpp as _ ->. by exists m. }
  destruct (snd (bs_apply v m x')) as [e|raw].
  { rewrite Hp in Hpp. injection Hpp as _ ->. by eexists. }
  destruct (refine_stage cv_call _ raw) as [e|mask].
  { rewrite Hp in Hpp. injection Hpp as _ ->. by eexists. }
  destruct Hpp as (ref & Hpp & _). rewrite Hp in Hpp.
  injection Hpp as _ ->. by eexists.
Qed.

(** X7.  Once [fit] has accepted a configuration whose ["fun"] entries
    are callables, [GOFPID] itself never raises in [predict]: every
    exception of a [predict] call is one that an OpenCV callable or the
    background subtractor raised. *)
Theorem predict_raises_only_from_opencv (s0 s1 s : state Model) X e s' :
  wf s0 -> Fit s0 = (inr tt, s1) ->
  (forall l m, blur (snd s0) = Some l -> read_dict (fst s0) l = Some m ->
     m <> ∅ -> exists name, m !! "fun" = Some (VFun name)) ->
  (forall l items, mat_morph (snd s0) = Some l ->
     read_list (fst s0) l = Some items ->
     Forall (callable_fun (fst s0)) items) ->
  processing bs_apply cv_call s1 s ->
  Predict X s = (inl e, s') ->
  opencv_raises bs_apply cv_call e.
Proof.
  destruct s0 as [h0 g0]. simpl. intros Hwf0 Hfit Hb Hm Hproc Hp.
  destruct (fit_spec _ _ _ _ Hwf0 Hfit) as (_ & Hwf1 & Hr & Hcfg & Hmth & _).
  destruct (check_config (config_of (h0, g0))) as [|[v c']] eqn:Hc0; [done|].
  specialize (Hcfg _ _ eq_refl).
  pose proof (config_of_callable _ _ _ _ Hb Hm Hc0) as Hcall.
  pose proof (check_config_inr _ _ _ Hc0) as (b' & m' & Hcb & Hcf & _ & _).
  unfold config_of in Hcb, Hcf. simpl in Hcb, Hcf. rewrite Hcb, Hcf in Hmth.
  pose proof (processing_extends _ _ Hproc) as Hext.
  pose proof (wf_extends _ _ Hwf1 Hext) as Hwf.
  pose proof (config_of_extends _ _ Hwf1 Hext) as Hcfg2. rewrite Hcfg in Hcfg2.
  destruct (processing_mth _ _ _ _ Hwf1 Hmth Hproc) as [m Hms].
  destruct s as [h g]. simpl in Hms.
  destruct (predict_process X h g Hwf) as (arrs & Hpp).
  rewrite Hcfg2, Hms in Hpp.
  destruct (process bs_apply cv_call c' (Some (v, m)) (resolve h X))
    as [mth' [e1|mask]] eqn:Hproc1.
  - rewrite Hp in Hpp. injection Hpp as -> _.
    by eapply process_raises_opencv.
  - destruct Hpp as (ref & Hpp & _). by rewrite Hp in Hpp.
Qed.

(** X9.  A configured pipeline stays configured: whatever frames
    [predict] is called on, and whether it raises or not, the subtractor
    stays bound, of the variant [fit] chose, and the configuration the
    pipeline reads stays what [fit] left. *)
Theorem configured_stays_configured (s0 s1 s : state Model) :
  wf s0 -> Fit s0 = (inr tt, s1) ->
  processing bs_apply cv_call s1 s ->
  exists v m,
    _frg_detect_mth (snd s1) = Some (v, createBackgroundSubtractor v) /\
    _frg_detect_mth (snd s) = Some (v, m) /\
    config_of s = config_of s1 /\
    check_config (config_of s) = inr (v, config_of s).
Proof.
  destruct s0 as [h0 g0]. intros Hwf0 Hfit Hproc.
  destruct (fit_spec _ _ _ _ Hwf0 Hfit) as (_ & Hwf1 & Hr & Hcfg & Hmth & _).
  destruct (check_config (config_of (h0, g0))) as [|[v c']] eqn:Hc0; [done|].
  specialize (Hcfg _ _ eq_refl).
  pose proof (check_config_inr _ _ _ Hc0) as (b' & m' & Hcb & Hcf & _ & _).
  unfold config_of in Hcb, Hcf. simpl in Hcb, Hcf. rewrite Hcb, Hcf in Hmth.
  pose proof (config_of_extends _ _ Hwf1 (processing_extends _ _ Hproc)) as Hc.
  destruct (processing_mth _ _ _ _ Hwf1 Hmth Hproc) as [m Hms].
  exists v, m. split_and!; [done|done|done|].
  rewrite Hc, Hcfg. by eapply check_config_idem.
Qed.

End Properties.

(** ** [helpers.is_in_rectangles] *)

Section helpers_properties.

Context {T Point Err : Type}.
Variable sub add : T -> T -> Err + T.
Variable pointPolygonTest : list (T * T) -> Point -> bool -> Err + Z.

Local Abbreviation In_rectangle := (in_rectangle sub add pointPolygonTest).

Lemma in_rectangle_spec coord center thickness :
  match In_rectangle coord center thickness with
  | inr b =>
      exists rect d,
        rectangle_of sub add center thickness = inr rect /\
        pointPolygonTest rect coord false = inr d /\
        (b = true <-> 0 <= d)
  | inl e =>
      rectangle_of sub add center thickness = inl e \/
      exists rect,
        rectangle_of sub add center thickness = inr rect /\
        pointPolygonTest rect coord false = inl e
  end.
Proof.
  unfold in_rectangle, mbind, Err_bind.
  destruct (rectangle_of sub add center thickness) as [e|rect]; [by left|].
  destruct (pointPolygonTest rect coord false) as [e|d] eqn:Hd.
  - right. by exists rect.
  - exists rect, d. split_and!; [done|done|]. apply Z.leb_le.
Qed.

Lemma is_in_rectangles_from_spec coord thickness centers : forall i,
  0 <= i ->
  match is_in_rectangles_from sub add pointPolygonTest i coord centers
          thickness with
  | inr r =>
      (r = -1 /\
       Forall (fun c => In_rectangle coord c thickness = inr false) centers) \/
      (i <= r < i + Z.of_nat (length centers) /\
       exists c,
         centers !! Z.to_nat (r - i) = Some c /\
         In_rectangle coord c thickness = inr true /\
         Forall (fun c => In_rectangle coord c thickness = inr false)
                (take (Z.to_nat (r - i)) centers))
  | inl e =>
      exists k c,
        centers !! k = Some c /\
        In_rectangle coord c thickness = inl e /\
        Forall (fun c => In_rectangle coord c thickness = inr false)
               (take k centers)
  end.
Proof.
  induction centers as [|c centers IH]; intros i Hi; [by left|].
  cbn [is_in_rectangles_from].
  destruct (In_rectangle coord c thickness) as [e|[|]] eqn:Hc.
  - by exists 0%nat, c.
  - right. rewrite Z.sub_diag. cbn [length]. split; [lia|]. by exists c.
  - specialize (IH (i + 1)).
    destruct (is_in_rectangles_from sub add pointPolygonTest (i + 1) coord
                centers thickness) as [e|r].
    + destruct IH as (k & c' & Hl & He & Hall); [lia|].
      exists (S k), c'. split_and!; [done|done|]. simpl. by constructor.
    + destruct IH as [[Hr Hall]|(Hr & c' & Hl & Hh & Hall)]; [lia| |].
      * left. split; [done|]. by constructor.
      * right. cbn [length]. split; [lia|]. exists c'.
        replace (Z.to_nat (r - i)) with (S (Z.to_nat (r - (i + 1)))) by lia.
        split_and!; [done|done|]. simpl. by constructor.
Qed.

(** X8.  [is_in_rectangles] goes through the centers in order and stops
    at the first one whose test does not return a negative value: it
    returns the index of that center when the test returned a value
    [>= 0], and raises what building the rectangle or
    [cv.pointPolygonTest] raised there.  It returns -1 exactly when the
    test returned a negative value at every center. *)
Theorem is_in_rectangles_first_match coord centers thickness :
  match is_in_rectangles sub add pointPolygonTest coord centers thickness with
  | inr r =>
      (r = -1 /\
       Forall (fun c => In_rectangle coord c thickness = inr false) centers) \/
      (0 <= r < Z.of_nat (length centers) /\
       exists c,
         centers !! Z.to_nat r = Some c /\
         In_rectangle coord c thickness = inr true /\
         Forall (fun c => In_rectangle coord c thickness = inr false)
                (take (Z.to_nat r) centers))
  | inl e =>
      exists k c,
        centers !! k = Some c /\
        In_rectangle coord c thickness = inl e /\
        Forall (fun c => In_rectangle coord c thickness = inr false)
               (take k centers)
  end /\
  forall c,
    match In_rectangle coord c thickness with
    | inr b =>
        exists rect d,
          rectangle_of sub add c thickness = inr rect /\
          pointPolygonTest rect coord false = inr d /\
          (b = true <-> 0 <= d)
    | inl e =>
        rectangle_of sub add c thickness = inl e \/
        exists rect,
          rectangle_of sub add c thickness = inr rect /\
          pointPolygonTest rect coord false = inl e
    end.
Proof.
  split; [|intros c; apply in_rectangle_spec].
  pose proof (is_in_rectangles_from_spec coord thickness centers 0) as H.
  unfold is_in_rectangles.
  destruct (is_in_rectangles_from sub add pointPolygonTest 0 coord centers
              thickness) as [e|r]; [by apply H|].
  destruct H as [H|(Hr & c & Hl & Hh & Hall)]; [done|by left|].
  right. rewrite Z.sub_0_r in *. split; [exact Hr|]. by exists c.
Qed.

End helpers_properties.

(** * Concrete runs

    The theorems at the pipelines of [Demo], and the inputs on which the
    code departs from two sentences of the specification. *)

Ltac by_compute := apply (bool_decide_unpack _); vm_compute; exact I.


(** [GOFPID(blur=None, mat_morph=[{}]).fit()] raises the configuration
    error of the [mat_morph] entry, and the subtractor is bound all the
    same: the pipeline is not [Unconfigured] any more. *)
Lemma fit_config_error_binds_subtractor :
  Unconfigured Demo.g_bad /\
  fst (Demo.fit (Demo.h_bad, Demo.g_bad))
  = inl (ValueError msg_mat_morph_no_fun) /\
  ~ Unconfigured (snd (snd (Demo.fit (Demo.h_bad, Demo.g_bad)))).
Proof.
  refine (conj _ (conj _ _)); [done|by vm_compute|].
  intros H. by vm_compute in H.
Qed.

Lemma fit_config_error_leaves_unusable_witness :
  wf (Demo.h_bad, Demo.g_bad) /\
  Unconfigured Demo.g_bad /\
  Demo.fit (Demo.h_bad, Demo.g_bad)
  = (inl (ValueError msg_mat_morph_no_fun),
     snd (Demo.fit (Demo.h_bad, Demo.g_bad))) /\
  (forall s,
     processing Demo.bs_apply Demo.cv_call
       (snd (Demo.fit (Demo.h_bad, Demo.g_bad))) s ->
     forall X, exists e s'',
       Demo.predict X s = (inl e, s'') /\
       motion_mask_ (snd s'') = motion_mask_ Demo.g_bad) /\
  (forall Xs,
     Forall (fun r => exists e, r = inl e)
       (fst (predict_seq Demo.bs_apply Demo.cv_call Xs
               (snd (Demo.fit (Demo.h_bad, Demo.g_bad))))) /\
     motion_mask_
       (snd (snd (predict_seq Demo.bs_apply Demo.cv_call Xs
                    (snd (Demo.fit (Demo.h_bad, Demo.g_bad))))))
     = motion_mask_ Demo.g_bad) /\
  exists v, check_frg_detect (frg_detect Demo.g_bad) = inr v /\
    _frg_detect_mth (snd (snd (Demo.fit (Demo.h_bad, Demo.g_bad))))
    = Some (v, Demo.createBackgroundSubtractor v).
Proof.
  assert (Hwf : wf (Demo.h_bad, Demo.g_bad)) by by_compute.
  assert (Hfit : Demo.fit (Demo.h_bad, Demo.g_bad)
                 = (inl (ValueError msg_mat_morph_no_fun),
                    snd (Demo.fit (Demo.h_bad, Demo.g_bad))))
    by by vm_compute.
  destruct (fit_config_error_leaves_unusable Demo.createBackgroundSubtractor
              Demo.bs_apply Demo.cv_call _ _ _ _ Hwf eq_refl Hfit)
    as (Hp & Hs & _ & Hb & _).
  exact (conj Hwf (conj eq_refl (conj Hfit (conj Hp (conj Hs (Hb eq_refl)))))).
Defined.

Lemma predict_refines_in_list_order_witness :
  wf Demo.s2 /\
  Demo.predict (VRef 7%nat) Demo.s2 = (inr 1, Demo.s3) /\
  (exists x' v m raw mask ref,
     denoise Demo.cv_call (blur_cfg_of (fst Demo.s2) (blur (snd Demo.s2)))
             (resolve (fst Demo.s2) (VRef 7%nat)) = inr x' /\
     _frg_detect_mth (snd Demo.s2) = Some (v, m) /\
     snd (Demo.bs_apply v m x') = inr raw /\
     refine_stage Demo.cv_call
       (mat_morph_cfg_of (fst Demo.s2) (mat_morph (snd Demo.s2))) raw
     = inr mask /\
     motion_mask_ (snd Demo.s3) = Some ref /\
     resolve (fst Demo.s3) ref = AArr mask) /\
  Demo.predict (VRef 0%nat) Demo.s_plain
  = (inr 0,
     (Demo.h_plain ++ [OArr (np_zeros [2; 3]%nat)],
      with_results Demo.g_plain (Some (MOG2, Some Demo.frame2))
                   (Some (VRef 1%nat)))).
Proof.
  assert (Hwf : wf (fst Demo.s2, snd Demo.s2)) by by_compute.
  refine (conj Hwf (conj _ (conj _ _))); [by vm_compute| |].
  - apply (proj1 (predict_refines_in_list_order Demo.bs_apply Demo.cv_call
                    (VRef 7%nat) (fst Demo.s2) (snd Demo.s2)) 1 Demo.s3 Hwf).
    by vm_compute.
  - apply (proj1 (proj2 (predict_refines_in_list_order Demo.bs_apply Demo.cv_call
                    (VRef 0%nat) (fst Demo.s_plain) (snd Demo.s_plain)))
             MOG2 None (np_zeros [2; 3]%nat)); by vm_compute.
Defined.

Lemma predict_mutates_no_input_witness :
  fst Demo.s2 !! 7%nat = Some (OArr Demo.frame2) /\
  fst Demo.s3 !! 7%nat = Some (OArr Demo.frame2) /\
  same_config (snd Demo.s2) (snd Demo.s3) /\
  _frg_detect_mth (snd (snd (Demo.predict (VRef 0%nat) Demo.s_plain)))
  = Some (MOG2, Some Demo.frame2).
Proof.
  pose proof (predict_mutates_no_input Demo.bs_apply Demo.cv_call
                (VRef 7%nat) (fst Demo.s2) (snd Demo.s2)) as (Hl & Hc & _).
  pose proof (predict_mutates_no_input Demo.bs_apply Demo.cv_call
                (VRef 0%nat) (fst Demo.s_plain) (snd Demo.s_plain)) as (_ & _ & Hm).
  refine (conj _ (conj _ (conj Hc _))); [by vm_compute| |].
  - apply (Hl 7%nat (OArr Demo.frame2)). by vm_compute.
  - apply (Hm MOG2 None); by vm_compute.
Defined.

Lemma fit_accepts_MOG2_and_KNN_witness :
  wf (Demo.h_plain, Demo.g_knn) /\
  Demo.fit (Demo.h_plain, Demo.g_knn)
  = (inr tt, (Demo.h_plain,
              with_results Demo.g_knn (Some (KNN, None)) None)) /\
  wf (Demo.h0, Demo.g0) /\
  (exists s',
     Demo.fit (Demo.h0, Demo.g0) = (inr tt, s') /\
     _frg_detect_mth (snd s')
     = Some (MOG2, Demo.createBackgroundSubtractor MOG2)) /\
  wf (Demo.h0, Demo.g_knn_default) /\
  fst (Demo.fit (Demo.h0, Demo.g_knn_default))
  <> inl (ValueError msg_unknown_method) /\
  (exists s',
     Demo.fit (Demo.h0, Demo.g_knn_default) = (inr tt, s') /\
     _frg_detect_mth (snd s')
     = Some (KNN, Demo.createBackgroundSubtractor KNN)) /\
  wf (Demo.h_plain, Demo.g_gmg) /\
  exists msg s',
    Demo.fit (Demo.h_plain, Demo.g_gmg) = (inl (ValueError msg), s') /\
    _frg_detect_mth (snd s') = _frg_detect_mth Demo.g_gmg /\
    (Unconfigured Demo.g_gmg ->
     forall X, exists e s'', Demo.predict X s' = (inl e, s'')) /\
    msg = msg_unknown_method /\
    (Unconfigured Demo.g_gmg ->
     forall s, processing Demo.bs_apply Demo.cv_call s' s ->
       Unconfigured (snd s) /\
       forall X, exists e s'', Demo.predict X s = (inl e, s'')).
Proof.
  assert (Hk : wf (Demo.h_plain, Demo.g_knn)) by by_compute.
  assert (H0 : wf (Demo.h0, Demo.g0)) by by_compute.
  assert (Hd : wf (Demo.h0, Demo.g_knn_default)) by by_compute.
  assert (Hg : wf (Demo.h_plain, Demo.g_gmg)) by by_compute.
  assert (Hblur : forall g : GOFPID Demo.Model,
            blur g = Some 0%nat ->
            truthy Demo.h0 (blur g) = false \/
            has_keys Demo.h0 (ref_of (blur g)) ["fun"]).
  { intros g ->. right.
    exists 0%nat, (<["fun" := VFun "cv.GaussianBlur"]>
                     (<["ksize" := VPair 3 3]>
                      (<["borderType" := VInt BORDER_DEFAULT]> ∅))).
    refine (conj eq_refl (conj eq_refl _)).
    repeat constructor. by exists (VFun "cv.GaussianBlur"). }
  assert (Hmorph : forall g : GOFPID Demo.Model,
            mat_morph g = Some 5%nat ->
            truthy Demo.h0 (mat_morph g) = false \/
            exists l items,
              mat_morph g = Some l /\ read_list Demo.h0 l = Some items /\
              Forall (fun d => has_keys Demo.h0 d ["fun"]) items).
  { intros g ->. right. exists 5%nat, [VRef 2%nat; VRef 4%nat].
    refine (conj eq_refl (conj eq_refl _)). repeat constructor.
    - exists 2%nat, (<["fun" := VFun "cv.erode"]>
                       (<["kernel" := VRef 1%nat]> ∅)).
      refine (conj eq_refl (conj eq_refl _)).
      repeat constructor. by exists (VFun "cv.erode").
    - exists 4%nat, (<["fun" := VFun "cv.dilate"]>
                       (<["kernel" := VRef 3%nat]> ∅)).
      refine (conj eq_refl (conj eq_refl _)).
      repeat constructor. by exists (VFun "cv.dilate"). }
  pose proof (fit_accepts_MOG2_and_KNN Demo.createBackgroundSubtractor
                Demo.bs_apply Demo.cv_call _ _ Hk) as (_ & _ & Hknn & _).
  pose proof (fit_accepts_MOG2_and_KNN Demo.createBackgroundSubtractor
                Demo.bs_apply Demo.cv_call _ _ H0) as (_ & _ & _ & Hacc0 & _).
  pose proof (fit_accepts_MOG2_and_KNN Demo.createBackgroundSubtractor
                Demo.bs_apply Demo.cv_call _ _ Hd) as (_ & _ & _ & Haccd & _).
  pose proof (fit_accepts_MOG2_and_KNN Demo.createBackgroundSubtractor
                Demo.bs_apply Demo.cv_call _ _ Hg) as (_ & _ & _ & _ & Hgmg).
  destruct (Hacc0 MOG2 eq_refl) as [_ Hfit0].
  destruct (Haccd KNN eq_refl) as [Hnod Hfitd].
  destruct Hgmg as (msg & s' & Hfit & Hmth & Hp & Hmsg & Hps);
    [discriminate|discriminate|by vm_compute|].
  refine (conj Hk (conj _ (conj H0 (conj _ (conj Hd (conj Hnod (conj _
            (conj Hg _)))))))).
  - apply Hknn; reflexivity.
  - exact (Hfit0 (Hblur Demo.g0 eq_refl) (Hmorph Demo.g0 eq_refl)).
  - exact (Hfitd (Hblur Demo.g_knn_default eq_refl)
                 (Hmorph Demo.g_knn_default eq_refl)).
  - exists msg, s'.
    exact (conj Hfit (conj Hmth (conj Hp (conj (Hmsg (or_introl eq_refl)) Hps)))).
Defined.

(** [GOFPID(blur={}).fit()]: the [blur] configuration is not [None] and
    has no ["fun"], and [fit] raises nothing. *)
Lemma fit_accepts_empty_blur :
  blur Demo.g_empty = Some 0%nat /\
  read_dict Demo.h_empty 0%nat = Some ∅ /\
  (∅ : gmap string value) !! "fun" = None /\
  Demo.fit (Demo.h_empty, Demo.g_empty)
  = (inr tt, (Demo.h_empty,
              with_results Demo.g_empty (Some (MOG2, None)) None)).
Proof. refine (conj _ (conj _ (conj _ _))); [done|done|done|by vm_compute]. Qed.

Lemma fit_validates_and_defaults_witness :
  wf (Demo.h_bare, Demo.g_bare) /\
  Demo.fit (Demo.h_bare, Demo.g_bare)
  = (inr tt, snd (Demo.fit (Demo.h_bare, Demo.g_bare))) /\
  (exists m',
     read_dict (fst (snd (Demo.fit (Demo.h_bare, Demo.g_bare)))) 0%nat = Some m' /\
     <["fun" := VFun "cv.blur"]> ∅ ⊆ m' /\
     m' !! "ksize" = Some (VPair 3 3) /\
     m' !! "borderType" = Some (VInt BORDER_DEFAULT)) /\
  read_list (fst (snd (Demo.fit (Demo.h_bare, Demo.g_bare)))) 2%nat
  = Some [VRef 1%nat] /\
  Forall (kernel_defaulted Demo.h_bare
            (fst (snd (Demo.fit (Demo.h_bare, Demo.g_bare)))))
         [VRef 1%nat].
Proof.
  assert (Hwf : wf (Demo.h_bare, Demo.g_bare)) by by_compute.
  assert (Hfit : Demo.fit (Demo.h_bare, Demo.g_bare)
                 = (inr tt, snd (Demo.fit (Demo.h_bare, Demo.g_bare))))
    by by vm_compute.
  destruct (fit_validates_and_defaults Demo.createBackgroundSubtractor
              Demo.bs_apply Demo.cv_call _ _ _ _ Hwf Hfit)
    as (_ & Hb & _ & Hk & _).
  refine (conj Hwf (conj Hfit (conj _ _))).
  - exact (Hb 0%nat (<["fun" := VFun "cv.blur"]> ∅) eq_refl eq_refl
              (ex_intro _ (VFun "cv.blur") eq_refl)).
  - exact (Hk 2%nat [VRef 1%nat] eq_refl eq_refl eq_refl).
Defined.

Lemma predict_before_fit_fails_witness :
  never_fitted Demo.createBackgroundSubtractor Demo.bs_apply Demo.cv_call
    (snd (Demo.fit (Demo.h_bad, Demo.g_bad))) /\
  exists e s',
    Demo.predict (VRef 0%nat) (snd (Demo.fit (Demo.h_bad, Demo.g_bad)))
    = (inl e, s') /\
    motion_mask_ (snd s') = None /\
    same_config (snd (snd (Demo.fit (Demo.h_bad, Demo.g_bad)))) (snd s').
Proof.
  assert (Hnf : never_fitted Demo.createBackgroundSubtractor Demo.bs_apply
                  Demo.cv_call (snd (Demo.fit (Demo.h_bad, Demo.g_bad)))).
  { apply (@nf_fit _ _ _ _ (Demo.h_bad, Demo.g_bad)
                   (ValueError msg_mat_morph_no_fun)).
    - apply (@nf_init _ _ _ _ Demo.h_bad (Some None) None (Some (Some 1%nat))).
      by_compute.
    - by vm_compute. }
  split; [exact Hnf|].
  exact (predict_before_fit_fails Demo.createBackgroundSubtractor
           Demo.bs_apply Demo.cv_call _ (VRef 0%nat) Hnf).
Defined.

Lemma predict_deterministic_witness :
  wf Demo.s0 /\ wf (Demo.h0', Demo.g0') /\
  config_of Demo.s0 = config_of (Demo.h0', Demo.g0') /\
  fst (Demo.fit Demo.s0) = fst (Demo.fit (Demo.h0', Demo.g0')) /\
  fst (predict_seq Demo.bs_apply Demo.cv_call [VRef 6; VRef 7]%nat
         (snd (Demo.fit Demo.s0)))
  = fst (predict_seq Demo.bs_apply Demo.cv_call [VRef 0; VRef 1]%nat
           (snd (Demo.fit (Demo.h0', Demo.g0')))).
Proof.
  assert (H1 : wf Demo.s0) by by_compute.
  assert (H2 : wf (Demo.h0', Demo.g0')) by by_compute.
  assert (Hc : config_of Demo.s0 = config_of (Demo.h0', Demo.g0'))
    by by vm_compute.
  destruct (predict_deterministic Demo.createBackgroundSubtractor
              Demo.bs_apply Demo.cv_call Demo.s0 (Demo.h0', Demo.g0')
              (inr tt) (inr tt) (snd (Demo.fit Demo.s0))
              (snd (Demo.fit (Demo.h0', Demo.g0'))) H1 H2 Hc)
    as [_ Hseq]; [by vm_compute|by vm_compute|].
  refine (conj H1 (conj H2 (conj Hc (conj _ _)))); [by vm_compute|].
  apply Hseq; [done|by_compute|by_compute|by vm_compute].
Defined.


(** [GOFPID().fit()], two frames, and [fit] again: [motion_mask_] still
    refers to the mask of the second frame, where the pipeline right
    after its first [fit] has none. *)
Lemma refit_keeps_last_mask :
  Demo.fit Demo.s0 = (inr tt, Demo.s1) /\
  motion_mask_ (snd Demo.s1) = None /\
  Demo.predict (VRef 6%nat) Demo.s1 = (inr 0, Demo.s2) /\
  Demo.predict (VRef 7%nat) Demo.s2 = (inr 1, Demo.s3) /\
  fst (Demo.fit Demo.s3) = inr tt /\
  motion_mask_ (snd (snd (Demo.fit Demo.s3))) = Some (VRef 15%nat) /\
  resolve (fst (snd (Demo.fit Demo.s3))) (VRef 15%nat)
  = AArr (NdArray [2; 3]%nat [0; 255; 255; 255; 0; 0]) /\
  motion_mask_ (snd (snd (Demo.fit Demo.s3))) <> motion_mask_ (snd Demo.s1).
Proof.
  refine (conj _ (conj _ (conj _ (conj _ (conj _ (conj _ (conj _ _)))))));
    [by vm_compute..|].
  intros H. by vm_compute in H.
Qed.

Lemma refit_resets_witness :
  wf Demo.s0 /\
  Demo.fit Demo.s0 = (inr tt, Demo.s1) /\
  processing Demo.bs_apply Demo.cv_call Demo.s1 Demo.s3 /\
  exists v s3',
    Demo.fit Demo.s3 = (inr tt, s3') /\
    _frg_detect_mth (snd Demo.s1) = Some (v, Demo.createBackgroundSubtractor v) /\
    _frg_detect_mth (snd s3') = Some (v, Demo.createBackgroundSubtractor v) /\
    fst s3' = fst Demo.s3 /\
    same_config (snd Demo.s3) (snd s3') /\
    motion_mask_ (snd s3') = motion_mask_ (snd Demo.s3) /\
    forall Xs1 Xs3,
      Forall (valid (fst Demo.s1)) Xs1 -> Forall (valid (fst s3')) Xs3 ->
      resolve (fst Demo.s1) <$> Xs1 = resolve (fst s3') <$> Xs3 ->
      fst (predict_seq Demo.bs_apply Demo.cv_call Xs3 s3')
      = fst (predict_seq Demo.bs_apply Demo.cv_call Xs1 Demo.s1) /\
      _frg_detect_mth (snd (snd (predict_seq Demo.bs_apply Demo.cv_call Xs3 s3')))
      = _frg_detect_mth
          (snd (snd (predict_seq Demo.bs_apply Demo.cv_call Xs1 Demo.s1))) /\
      (Exists (fun r => exists y, r = inr y)
              (fst (predict_seq Demo.bs_apply Demo.cv_call Xs1 Demo.s1)) ->
       exists v1 v3 mask,
         motion_mask_
           (snd (snd (predict_seq Demo.bs_apply Demo.cv_call Xs1 Demo.s1)))
         = Some v1 /\
         resolve (fst (snd (predict_seq Demo.bs_apply Demo.cv_call Xs1 Demo.s1)))
                 v1 = AArr mask /\
         motion_mask_
           (snd (snd (predict_seq Demo.bs_apply Demo.cv_call Xs3 s3')))
         = Some v3 /\
         resolve (fst (snd (predict_seq Demo.bs_apply Demo.cv_call Xs3 s3')))
                 v3 = AArr mask) /\
      (Forall (fun r => exists e, r = inl e)
              (fst (predict_seq Demo.bs_apply Demo.cv_call Xs1 Demo.s1)) ->
       motion_mask_
         (snd (snd (predict_seq Demo.bs_apply Demo.cv_call Xs1 Demo.s1)))
       = motion_mask_ (snd Demo.s1) /\
       motion_mask_
         (snd (snd (predict_seq Demo.bs_apply Demo.cv_call Xs3 s3')))
       = motion_mask_ (snd Demo.s3)).
Proof.
  assert (Hwf : wf Demo.s0) by by_compute.
  assert (Hfit : Demo.fit Demo.s0 = (inr tt, Demo.s1)) by by vm_compute.
  assert (Hp : processing Demo.bs_apply Demo.cv_call Demo.s1 Demo.s3).
  { apply (@pr_predict _ _ _ _ Demo.s2 (VRef 7%nat) (inr 1)); [|by vm_compute].
    apply (@pr_predict _ _ _ _ Demo.s1 (VRef 6%nat) (inr 0)); [|by vm_compute].
    apply pr_start. }
  refine (conj Hwf (conj Hfit (conj Hp _))).
  exact (refit_resets Demo.createBackgroundSubtractor Demo.bs_apply
           Demo.cv_call Demo.s0 Demo.s1 Demo.s3 Hwf Hfit Hp).
Defined.

(** ** The further properties at the pipelines of [Demo] *)

Lemma fit_only_adds_defaults_witness :
  wf (Demo.h_bare, Demo.g_bare) /\
  Demo.fit (Demo.h_bare, Demo.g_bare)
  = (inr tt, snd (Demo.fit (Demo.h_bare, Demo.g_bare))) /\
  fst (snd (Demo.fit (Demo.h_bare, Demo.g_bare))) !! 2%nat
  = Some (OList [VRef 1%nat]) /\
  exists m',
    fst (snd (Demo.fit (Demo.h_bare, Demo.g_bare))) !! 1%nat
    = Some (ODict m') /\
    (forall k v, Demo.d_erode !! k = Some v ->
       m' !! k = Some v) /\
    (forall k v, Demo.d_erode !! k = None ->
       m' !! k = Some v ->
       is_default (fst (snd (Demo.fit (Demo.h_bare, Demo.g_bare)))) k v) /\
    (Demo.d_erode = ∅ -> m' = ∅).
Proof.
  assert (Hwf : wf (Demo.h_bare, Demo.g_bare)) by by_compute.
  assert (Hfit : Demo.fit (Demo.h_bare, Demo.g_bare)
                 = (inr tt, snd (Demo.fit (Demo.h_bare, Demo.g_bare))))
    by by vm_compute.
  destruct (fit_only_adds_defaults Demo.createBackgroundSubtractor
              _ _ _ _ Hwf Hfit) as (_ & _ & Ho).
  refine (conj Hwf (conj Hfit (conj _ _))).
  - exact (Ho 2%nat (OList [VRef 1%nat]) eq_refl).
  - exact (Ho 1%nat (ODict (Demo.d_erode)) eq_refl).
Defined.

Lemma fit_again_keeps_store_witness :
  wf Demo.s0 /\
  Demo.fit Demo.s0 = (inr tt, Demo.s1) /\
  processing Demo.bs_apply Demo.cv_call Demo.s1 Demo.s3 /\
  exists v,
    _frg_detect_mth (snd Demo.s1) = Some (v, Demo.createBackgroundSubtractor v) /\
    Demo.fit Demo.s3
    = (inr tt,
       (fst Demo.s3,
        with_results (snd Demo.s3) (Some (v, Demo.createBackgroundSubtractor v))
                     (motion_mask_ (snd Demo.s3)))).
Proof.
  assert (Hwf : wf Demo.s0) by by_compute.
  assert (Hfit : Demo.fit Demo.s0 = (inr tt, Demo.s1)) by by vm_compute.
  assert (Hp : processing Demo.bs_apply Demo.cv_call Demo.s1 Demo.s3).
  { apply (@pr_predict _ _ _ _ Demo.s2 (VRef 7%nat) (inr 1)); [|by vm_compute].
    apply (@pr_predict _ _ _ _ Demo.s1 (VRef 6%nat) (inr 0)); [|by vm_compute].
    apply pr_start. }
  refine (conj Hwf (conj Hfit (conj Hp _))).
  exact (fit_again_keeps_store Demo.createBackgroundSubtractor Demo.bs_apply
           Demo.cv_call Demo.s0 Demo.s1 Demo.s3 Hwf Hfit Hp).
Defined.

Lemma predict_raise_effects_witness :
  wf Demo.s_bad /\
  Demo.predict (VRef 2%nat) Demo.s_bad
  = (inl TypeError, snd (Demo.predict (VRef 2%nat) Demo.s_bad)) /\
  motion_mask_ (snd (snd (Demo.predict (VRef 2%nat) Demo.s_bad))) = None /\
  _frg_detect_mth (snd (snd (Demo.predict (VRef 2%nat) Demo.s_bad)))
  = Some (MOG2, Some Demo.frame1) /\
  wf Demo.s1 /\
  fst (Demo.predict VNone Demo.s1) = inl (CvError "not an array") /\
  snd (Demo.predict VNone Demo.s1) = (fst Demo.s1, snd Demo.s1).
Proof.
  assert (Hwf : wf (fst Demo.s_bad, snd Demo.s_bad)) by by_compute.
  assert (Hp : Demo.predict (VRef 2%nat) (fst Demo.s_bad, snd Demo.s_bad)
               = (inl TypeError, snd (Demo.predict (VRef 2%nat) Demo.s_bad)))
    by by vm_compute.
  destruct (predict_raise_effects Demo.bs_apply Demo.cv_call _ _ _ _ _ Hwf Hp)
    as (Hm & _ & Hmodel).
  assert (Hwf1 : wf (fst Demo.s1, snd Demo.s1)) by by_compute.
  assert (Hp1 : Demo.predict VNone (fst Demo.s1, snd Demo.s1)
                = (inl (CvError "not an array"),
                   snd (Demo.predict VNone Demo.s1)))
    by by vm_compute.
  destruct (predict_raise_effects Demo.bs_apply Demo.cv_call _ _ _ _ _ Hwf1 Hp1)
    as (_ & Hsame & _).
  refine (conj Hwf (conj Hp (conj Hm (conj _ (conj Hwf1 (conj _ _)))))).
  - exact (Hmodel (AArr Demo.frame1) MOG2 None eq_refl eq_refl).
  - by vm_compute.
  - exact (proj2 (Hsame (CvError "not an array") eq_refl)).
Defined.

Lemma model_after_frames_witness :
  wf Demo.s1 /\
  Forall (valid (fst Demo.s1)) [VRef 6%nat; VRef 7%nat] /\
  _frg_detect_mth (snd Demo.s1) = Some (MOG2, None) /\
  _frg_detect_mth
    (snd (snd (predict_seq Demo.bs_apply Demo.cv_call
                 [VRef 6%nat; VRef 7%nat] Demo.s1)))
  = Some (MOG2, Some Demo.frame2).
Proof.
  assert (Hwf : wf (fst Demo.s1, snd Demo.s1)) by by_compute.
  assert (Hv : Forall (valid (fst Demo.s1)) [VRef 6%nat; VRef 7%nat])
    by by_compute.
  refine (conj Hwf (conj Hv (conj eq_refl _))).
  exact (model_after_frames Demo.bs_apply Demo.cv_call
           [VRef 6%nat; VRef 7%nat] (fst Demo.s1) (snd Demo.s1) MOG2 None
           Hwf Hv eq_refl).
Defined.

Lemma fit_does_not_check_callable_witness :
  wf Demo.s_str /\
  Demo.fit Demo.s_str = (inr tt, snd (Demo.fit Demo.s_str)) /\
  Demo.predict (VRef 1%nat) (snd (Demo.fit Demo.s_str))
  = (inl TypeError, snd (Demo.fit Demo.s_str)).
Proof.
  assert (Hwf : wf Demo.s_str) by by_compute.
  assert (Hfit : Demo.fit Demo.s_str = (inr tt, snd (Demo.fit Demo.s_str)))
    by by vm_compute.
  refine (conj Hwf (conj Hfit _)).
  apply (fit_does_not_check_callable Demo.createBackgroundSubtractor
           Demo.bs_apply Demo.cv_call Demo.s_str (snd (Demo.fit Demo.s_str))
           (snd (Demo.fit Demo.s_str)) 0%nat
           (<["fun" := VStr "gaussian"]> ∅) (VStr "gaussian") (VRef 1%nat)
           Hwf Hfit eq_refl eq_refl eq_refl).
  - intros name. discriminate.
  - apply pr_start.
Defined.

Lemma fit_unknown_frg_detect_stops_early_witness :
  frg_detect Demo.g_gmg <> VStr "MOG2" /\
  frg_detect Demo.g_gmg <> VStr "KNN" /\
  (exists e, fst (Demo.fit (Demo.h_plain, Demo.g_gmg)) = inl e) /\
  snd (snd (Demo.fit (Demo.h_plain, Demo.g_gmg))) = Demo.g_gmg /\
  length (fst (snd (Demo.fit (Demo.h_plain, Demo.g_gmg))))
  = length Demo.h_plain.
Proof.
  assert (H1 : frg_detect Demo.g_gmg <> VStr "MOG2") by discriminate.
  assert (H2 : frg_detect Demo.g_gmg <> VStr "KNN") by discriminate.
  destruct (fit_unknown_frg_detect_stops_early Demo.createBackgroundSubtractor
              Demo.h_plain Demo.g_gmg
              (fst (Demo.fit (Demo.h_plain, Demo.g_gmg)))
              (snd (Demo.fit (Demo.h_plain, Demo.g_gmg))) H1 H2)
    as (He & Hg & Hl & _); [by vm_compute|].
  exact (conj H1 (conj H2 (conj He (conj Hg Hl)))).
Defined.

Lemma predict_raises_only_from_opencv_witness :
  wf Demo.s0 /\
  Demo.fit Demo.s0 = (inr tt, Demo.s1) /\
  Demo.predict VNone Demo.s1 = (inl (CvError "not an array"), Demo.s1) /\
  opencv_raises Demo.bs_apply Demo.cv_call (CvError "not an array").
Proof.
  assert (Hwf : wf Demo.s0) by by_compute.
  assert (Hfit : Demo.fit Demo.s0 = (inr tt, Demo.s1)) by by vm_compute.
  assert (Hp : Demo.predict VNone Demo.s1
               = (inl (CvError "not an array"), Demo.s1)) by by vm_compute.
  refine (conj Hwf (conj Hfit (conj Hp _))).
  apply (predict_raises_only_from_opencv Demo.createBackgroundSubtractor
           Demo.bs_apply Demo.cv_call Demo.s0 Demo.s1 Demo.s1 VNone
           (CvError "not an array") Demo.s1 Hwf Hfit).
  - intros l m [= <-] [= <-] _. by exists "cv.GaussianBlur".
  - intros l items [= <-] [= <-]. repeat constructor.
    + by exists 2%nat, (<["fun" := VFun "cv.erode"]>
                          (<["kernel" := VRef 1%nat]> ∅)), "cv.erode".
    + by exists 4%nat, (<["fun" := VFun "cv.dilate"]>
                          (<["kernel" := VRef 3%nat]> ∅)), "cv.dilate".
  - apply pr_start.
  - exact Hp.
Defined.

Lemma configured_stays_configured_witness :
  wf Demo.s0 /\
  Demo.fit Demo.s0 = (inr tt, Demo.s1) /\
  processing Demo.bs_apply Demo.cv_call Demo.s1 Demo.s3 /\
  exists v m,
    _frg_detect_mth (snd Demo.s1) = Some (v, Demo.createBackgroundSubtractor v) /\
    _frg_detect_mth (snd Demo.s3) = Some (v, m) /\
    config_of Demo.s3 = config_of Demo.s1 /\
    check_config (config_of Demo.s3) = inr (v, config_of Demo.s3).
Proof.
  assert (Hwf : wf Demo.s0) by by_compute.
  assert (Hfit : Demo.fit Demo.s0 = (inr tt, Demo.s1)) by by vm_compute.
  assert (Hp : processing Demo.bs_apply Demo.cv_call Demo.s1 Demo.s3).
  { apply (@pr_predict _ _ _ _ Demo.s2 (VRef 7%nat) (inr 1)); [|by vm_compute].
    apply (@pr_predict _ _ _ _ Demo.s1 (VRef 6%nat) (inr 0)); [|by vm_compute].
    apply pr_start. }
  refine (conj Hwf (conj Hfit (conj Hp _))).
  exact (configured_stays_configured Demo.createBackgroundSubtractor
           Demo.bs_apply Demo.cv_call Demo.s0 Demo.s1 Demo.s3 Hwf Hfit Hp).
Defined.

(** [is_in_rectangles] on centers with half-sides (2, 2).  On int32
    arrays: the point (5, 5) is outside the first rectangle and inside
    the second; (20, 20) is in none.  On int16 arrays, as [get_centers]
    returns them by default, OpenCV refuses the contour of the first
    center; on no center at all the result is -1 whatever the dtype. *)
Lemma is_in_rectangles_example :
  let run d coord centers :=
    is_in_rectangles Demo.np_sub Demo.np_add Demo.pointPolygonTest coord
      (Demo.points d centers) ((d, 2), (d, 2)) in
  run Demo.int32 (5, 5) [(0, 0); (4, 4); (5, 5)] = inr 1 /\
  run Demo.int32 (20, 20) [(0, 0); (4, 4); (5, 5)] = inr (-1) /\
  run Demo.int32 (2, 0) [(0, 0); (4, 4)] = inr 0 /\
  run Demo.int16 (5, 5) [(0, 0); (4, 4); (5, 5)]
  = inl (CvError "pointPolygonTest: contour is not CV_32S or CV_32F") /\
  run Demo.int16 (5, 5) [] = inr (-1).
Proof. by vm_compute. Qed.
